(** * WorkspaceTracker and GitIgnoreProcessor: a shallow embedding

    Sources embedded here:
    - [src/integrations/workspace/WorkspaceTracker.ts]
    - [src/services/glob/git-ignore.ts]

    The tracker keeps a set of normalized paths up to date from file-system
    watcher events.  Event handlers are asynchronous and are chained on one
    promise ([notifyQueue]); a debounce timer delivers snapshots or queues a
    full re-scan. *)

From Stdlib Require Import String Ascii List Bool Arith Lia.
From stdpp Require Import gmap strings.
Import ListNotations.

Local Open Scope string_scope.
Local Open Scope list_scope.

(** ** Node's [path] module, POSIX flavour

    The tracker tests [endsWith("/")], so the POSIX flavour of [path] is
    the one modelled.  [dirname] and [basename] follow the character scans
    of Node's implementation; [normalizeString] is given at the level of
    the segments between separators. *)

Module Path.

Definition sep : ascii := "/"%char.

Definition isSep (c : ascii) : bool := Ascii.eqb c sep.

(** [s.split("/")] *)
Fixpoint split (s : string) : list string :=
  match s with
  | EmptyString => [EmptyString]
  | String c r =>
      if isSep c then EmptyString :: split r
      else match split r with
           | h :: t => String c h :: t
           | [] => [String c EmptyString]
           end
  end.

(** [segs.join("/")] *)
Fixpoint join (segs : list string) : string :=
  match segs with
  | [] => EmptyString
  | [x] => x
  | x :: r => x +:+ String sep (join r)
  end.

(** [s.endsWith("/")] *)
Fixpoint endsWithSep (s : string) : bool :=
  match s with
  | EmptyString => false
  | String c EmptyString => isSep c
  | String _ r => endsWithSep r
  end.

(** [s.startsWith(p)] *)
Definition startsWith (s p : string) : bool := String.prefix p s.

(** [path.isAbsolute] *)
Definition isAbsolute (s : string) : bool :=
  match s with
  | String c _ => isSep c
  | EmptyString => false
  end.

(** [normalizeString]: the stack in [acc] is kept reversed.  Empty and
    ["."] segments are dropped; [".."] pops the last kept segment unless
    there is none or it is itself [".."], in which case it is kept only
    when [allowAboveRoot]. *)
Fixpoint normalizeSegs (allowAboveRoot : bool) (acc segs : list string)
  : list string :=
  match segs with
  | [] => rev acc
  | s :: r =>
      if String.eqb s "" || String.eqb s "." then
        normalizeSegs allowAboveRoot acc r
      else if String.eqb s ".." then
        match acc with
        | t :: acc' =>
            if String.eqb t ".." then
              normalizeSegs allowAboveRoot
                (if allowAboveRoot then ".." :: acc else acc) r
            else normalizeSegs allowAboveRoot acc' r
        | [] =>
            normalizeSegs allowAboveRoot
              (if allowAboveRoot then [".."] else []) r
        end
      else normalizeSegs allowAboveRoot (s :: acc) r
  end.

Definition normalizeString (p : string) (allowAboveRoot : bool) : string :=
  join (normalizeSegs allowAboveRoot [] (split p)).

(** The right-to-left loop of [path.resolve]: [rargs] lists the arguments
    last first, with [process.cwd()] at the very end. *)
Fixpoint resolveLoop (rargs : list string) (resolvedPath : string)
  : string * bool :=
  match rargs with
  | [] => (resolvedPath, false)
  | p :: r =>
      if String.eqb p "" then resolveLoop r resolvedPath
      else
        let resolvedPath' := p +:+ String sep resolvedPath in
        if isAbsolute p then (resolvedPath', true)
        else resolveLoop r resolvedPath'
  end.

(** [path.resolve(...args)], with the process working directory explicit. *)
Definition resolve (processCwd : string) (args : list string) : string :=
  let '(resolvedPath, resolvedAbsolute) :=
    resolveLoop (rev args ++ [processCwd]) "" in
  let n := normalizeString resolvedPath (negb resolvedAbsolute) in
  if resolvedAbsolute then String sep n
  else if String.eqb n "" then "." else n.

(** [path.normalize] *)
Definition normalize (p : string) : string :=
  if String.eqb p "" then "."
  else
    let n := normalizeString p (negb (isAbsolute p)) in
    if String.eqb n "" then
      if isAbsolute p then "/" else if endsWithSep p then "./" else "."
    else
      let n' := if endsWithSep p then n +:+ "/" else n in
      if isAbsolute p then String sep n' else n'.

(** [path.join(...args)] *)
Definition joinPaths (args : list string) : string :=
  match List.filter (fun a => negb (String.eqb a "")) args with
  | [] => "."
  | l => normalize (join l)
  end.

Fixpoint dropWhile (f : ascii -> bool) (l : list ascii) : list ascii :=
  match l with
  | c :: r => if f c then dropWhile f r else l
  | [] => []
  end.

Fixpoint takeWhile (f : ascii -> bool) (l : list ascii) : list ascii :=
  match l with
  | c :: r => if f c then c :: takeWhile f r else []
  | [] => []
  end.

Definition notSep (c : ascii) : bool := negb (isSep c).

(** [path.dirname]: the scan runs from the last character down to index 1;
    trailing separators are skipped, then the last segment, and the path
    is cut at the separator in front of it. *)
Definition dirname (p : string) : string :=
  match p with
  | EmptyString => "."
  | String c0 r =>
      let hasRoot := isSep c0 in
      match dropWhile notSep (dropWhile isSep (rev (list_ascii_of_string r))) with
      | [] => if hasRoot then "/" else "."
      | _ :: before =>
          match before with
          | [] => if hasRoot then "//" else String c0 EmptyString
          | _ => String c0 (string_of_list_ascii (rev before))
          end
      end
  end.

(** [path.basename] without a suffix argument. *)
Definition basename (p : string) : string :=
  string_of_list_ascii
    (rev (takeWhile notSep (dropWhile isSep (rev (list_ascii_of_string p))))).

(** [path.parse(p).root] *)
Definition parseRoot (p : string) : string :=
  if isAbsolute p then "/" else "".

Fixpoint dropCommon (a b : list string) : list string * list string :=
  match a, b with
  | x :: a', y :: b' => if String.eqb x y then dropCommon a' b' else (a, b)
  | _, _ => (a, b)
  end.

(** [path.relative(from, to)]: both ends are resolved, the common leading
    segments are dropped, and each remaining segment of [from] becomes
    [".."]. *)
Definition relative (processCwd from to : string) : string :=
  if String.eqb from to then ""
  else
    let f := resolve processCwd [from] in
    let t := resolve processCwd [to] in
    if String.eqb f t then ""
    else
      let '(f', t') :=
        dropCommon (normalizeSegs false [] (split f))
                   (normalizeSegs false [] (split t)) in
      join (map (fun _ => "..") f' ++ t').

End Path.

(** ** What the tracker takes from its surroundings

    [cwd] is the module-level constant of [WorkspaceTracker.ts];
    [ignores] and [isMatch] are the [ignore] and [micromatch] packages,
    black boxes here.  An [ignore] instance is represented by the list of
    the contents added to it, in the order of the [add] calls; [ignores]
    answers [None] when the package throws (it rejects paths that are not
    relative), and so does [isMatch] ([micromatch] rejects a pattern that
    is the empty string).  [toPosix] is the string helper of [utils/path],
    which is not among the embedded sources. *)

Class Host := {
  cwd : option string;
  processCwd : string;
  ignores : list string -> string -> option bool;
  isMatch : string -> list string -> option bool;
  getDirsToIgnore : list string;
  toPosix : string -> string;
}.

(** JavaScript truthiness of [cwd]: [undefined] and the empty string are
    both falsy. *)
Definition cwdRoot `{Host} : option string :=
  match cwd with
  | Some c => if String.eqb c "" then None else Some c
  | None => None
  end.

(** The file system as the synchronous [fs] calls see it.
    [readFileSync] answers [None] when it throws. *)
Record Disk := {
  existsSync : string -> bool;
  readFileSync : string -> option string;
}.

(** How a synchronous call ends. *)
Inductive Completion (A : Type) : Type :=
| Normal (a : A)
| Thrown
| Unfinished.
Arguments Normal {A} a.
Arguments Thrown {A}.
Arguments Unfinished {A}.

(** ** git-ignore.ts *)

Record GitIgnoreProcessor := {
  gitignoreCache : gmap string (list string);
  workspacePath : string;
}.

Definition newGitIgnoreProcessor (workspacePath : string) : GitIgnoreProcessor :=
  {| gitignoreCache := ∅; workspacePath := workspacePath |}.

Definition clearCache (g : GitIgnoreProcessor) : GitIgnoreProcessor :=
  {| gitignoreCache := ∅; workspacePath := workspacePath g |}.

(** One round of the [while] body up to the [break] test: the rules
    gathered so far, extended by the [.gitignore] of [currentDir] when it
    exists and can be read. *)
Definition addGitignoreOf (d : Disk) (currentDir : string)
    (instance : list string) : list string :=
  let gitignorePath := Path.joinPaths [currentDir; ".gitignore"] in
  if existsSync d gitignorePath then
    match readFileSync d gitignorePath with
    | Some content => instance ++ [content]
    | None => instance
    end
  else instance.

(** The [while] loop of [getGitignoreRulesForPath]; [None] when [fuel]
    rounds were not enough. *)
Fixpoint walkUp (fuel : nat) (d : Disk) (workspacePath currentDir : string)
    (instance : list string) : option (list string) :=
  if Path.startsWith currentDir workspacePath
     && negb (String.eqb currentDir (Path.parseRoot currentDir))
  then
    match fuel with
    | O => None
    | S fuel' =>
        let instance' := addGitignoreOf d currentDir instance in
        if String.eqb currentDir workspacePath then Some instance'
        else walkUp fuel' d workspacePath (Path.dirname currentDir) instance'
    end
  else Some instance.

(** Every round but the last moves to [dirname], so a directory of [n]
    characters needs no more than [n + 2] rounds whenever the loop ends at
    all, which it does as soon as the root is not the empty string. *)
Definition walkFuel (dir : string) : nat := S (S (String.length dir)).

Definition getGitignoreRulesForPath (d : Disk) (dir : string)
    (g : GitIgnoreProcessor) : option (list string * GitIgnoreProcessor) :=
  match gitignoreCache g !! dir with
  | Some rules => Some (rules, g)
  | None =>
      match walkUp (walkFuel dir) d (workspacePath g) dir [] with
      | Some rules =>
          Some (rules,
                {| gitignoreCache := <[dir := rules]> (gitignoreCache g);
                   workspacePath := workspacePath g |})
      | None => None
      end
  end.

Definition shouldIgnoreFile `{Host} (d : Disk) (filePath : string)
    (exclusionGlobs : list string) (g : GitIgnoreProcessor)
  : Completion bool * GitIgnoreProcessor :=
  let fileDir := Path.dirname filePath in
  match getGitignoreRulesForPath d fileDir g with
  | None => (Unfinished, g)
  | Some (gitignoreRules, g') =>
      match ignores gitignoreRules (Path.relative processCwd fileDir filePath) with
      | None => (Thrown, g')
      | Some true => (Normal true, g')
      | Some false =>
          match isMatch filePath exclusionGlobs with
          | Some matched => (Normal matched, g')
          | None => (Thrown, g')
          end
      end
  end.

(** ** WorkspaceTracker.ts: state *)

Definition DEBOUNCE_DELAY : nat := 1000.
Definition EVENT_FLOOD_SZ : nat := 100.

(** A [Set<string>] keeps its elements in insertion order, and
    [workspaceDidUpdate] depends on that order through [slice]. *)
Definition setHas (x : string) (s : list string) : bool :=
  existsb (String.eqb x) s.

Definition setAdd (x : string) (s : list string) : list string :=
  if setHas x s then s else s ++ [x].

Definition setDelete (x : string) (s : list string) : bool * list string :=
  (setHas x s, List.filter (fun y => negb (String.eqb x y)) s).

(** The tracker's fields, followed by the parts of the runtime it acts on:
    the disk, the timers that are still to fire, whether the provider
    behind the [WeakRef] is still there, and the messages posted to the
    webview (the [filePaths] of each, latest last). *)
Record Tracker := {
  filePaths : list string;
  workspaceDidUpdateTimeout : option nat;
  gitIgnoreProcessor : GitIgnoreProcessor;
  eventCount : nat;
  needReInit : bool;
  disk : Disk;
  liveTimers : list nat;
  nextTimerId : nat;
  providerAlive : bool;
  posted : list (list string);
}.

Definition setFilePaths (v : list string) (t : Tracker) : Tracker :=
  {| filePaths := v;
     workspaceDidUpdateTimeout := workspaceDidUpdateTimeout t;
     gitIgnoreProcessor := gitIgnoreProcessor t;
     eventCount := eventCount t; needReInit := needReInit t;
     disk := disk t; liveTimers := liveTimers t;
     nextTimerId := nextTimerId t; providerAlive := providerAlive t;
     posted := posted t |}.

Definition setGitIgnoreProcessor (v : GitIgnoreProcessor) (t : Tracker) : Tracker :=
  {| filePaths := filePaths t;
     workspaceDidUpdateTimeout := workspaceDidUpdateTimeout t;
     gitIgnoreProcessor := v;
     eventCount := eventCount t; needReInit := needReInit t;
     disk := disk t; liveTimers := liveTimers t;
     nextTimerId := nextTimerId t; providerAlive := providerAlive t;
     posted := posted t |}.

Definition setEventCount (v : nat) (t : Tracker) : Tracker :=
  {| filePaths := filePaths t;
     workspaceDidUpdateTimeout := workspaceDidUpdateTimeout t;
     gitIgnoreProcessor := gitIgnoreProcessor t;
     eventCount := v; needReInit := needReInit t;
     disk := disk t; liveTimers := liveTimers t;
     nextTimerId := nextTimerId t; providerAlive := providerAlive t;
     posted := posted t |}.

Definition setNeedReInit (v : bool) (t : Tracker) : Tracker :=
  {| filePaths := filePaths t;
     workspaceDidUpdateTimeout := workspaceDidUpdateTimeout t;
     gitIgnoreProcessor := gitIgnoreProcessor t;
     eventCount := eventCount t; needReInit := v;
     disk := disk t; liveTimers := liveTimers t;
     nextTimerId := nextTimerId t; providerAlive := providerAlive t;
     posted := posted t |}.

Definition setDisk (v : Disk) (t : Tracker) : Tracker :=
  {| filePaths := filePaths t;
     workspaceDidUpdateTimeout := workspaceDidUpdateTimeout t;
     gitIgnoreProcessor := gitIgnoreProcessor t;
     eventCount := eventCount t; needReInit := needReInit t;
     disk := v; liveTimers := liveTimers t;
     nextTimerId := nextTimerId t; providerAlive := providerAlive t;
     posted := posted t |}.

Definition setProviderAlive (v : bool) (t : Tracker) : Tracker :=
  {| filePaths := filePaths t;
     workspaceDidUpdateTimeout := workspaceDidUpdateTimeout t;
     gitIgnoreProcessor := gitIgnoreProcessor t;
     eventCount := eventCount t; needReInit := needReInit t;
     disk := disk t; liveTimers := liveTimers t;
     nextTimerId := nextTimerId t; providerAlive := v;
     posted := posted t |}.

Definition setPosted (v : list (list string)) (t : Tracker) : Tracker :=
  {| filePaths := filePaths t;
     workspaceDidUpdateTimeout := workspaceDidUpdateTimeout t;
     gitIgnoreProcessor := gitIgnoreProcessor t;
     eventCount := eventCount t; needReInit := needReInit t;
     disk := disk t; liveTimers := liveTimers t;
     nextTimerId := nextTimerId t; providerAlive := providerAlive t;
     posted := v |}.

(** [clearTimeout(id)] *)
Definition clearTimeout (id : nat) (t : Tracker) : Tracker :=
  {| filePaths := filePaths t;
     workspaceDidUpdateTimeout := workspaceDidUpdateTimeout t;
     gitIgnoreProcessor := gitIgnoreProcessor t;
     eventCount := eventCount t; needReInit := needReInit t;
     disk := disk t;
     liveTimers := List.filter (fun i => negb (Nat.eqb i id)) (liveTimers t);
     nextTimerId := nextTimerId t; providerAlive := providerAlive t;
     posted := posted t |}.

(** [this.workspaceDidUpdateTimeout = setTimeout(callback, DEBOUNCE_DELAY)]:
    the callback is always the same closure, so a timer is its handle. *)
Definition setTimeout (t : Tracker) : Tracker :=
  {| filePaths := filePaths t;
     workspaceDidUpdateTimeout := Some (nextTimerId t);
     gitIgnoreProcessor := gitIgnoreProcessor t;
     eventCount := eventCount t; needReInit := needReInit t;
     disk := disk t;
     liveTimers := liveTimers t ++ [nextTimerId t];
     nextTimerId := S (nextTimerId t); providerAlive := providerAlive t;
     posted := posted t |}.

(** ** WorkspaceTracker.ts: synchronous methods *)

Section Tracker.
Context `{Host}.

(** The constructor: [new GitIgnoreProcessor(cwd || process.cwd())], an
    empty set, no timer. *)
Definition newTracker (d : Disk) : Tracker :=
  {| filePaths := [];
     workspaceDidUpdateTimeout := None;
     gitIgnoreProcessor :=
       newGitIgnoreProcessor
         (match cwdRoot with Some c => c | None => processCwd end);
     eventCount := 0; needReInit := false;
     disk := d; liveTimers := []; nextTimerId := 0;
     providerAlive := true; posted := [] |}.

Definition normalizeFilePath (filePath : string) : string :=
  let resolvedPath :=
    match cwdRoot with
    | Some c => Path.resolve processCwd [c; filePath]
    | None => Path.resolve processCwd [filePath]
    end in
  if Path.endsWithSep filePath then resolvedPath +:+ "/" else resolvedPath.

Definition workspaceDidUpdate (t : Tracker) : Tracker :=
  match cwdRoot with
  | None => t
  | Some c =>
      let maxContextFiles := 1000 in
      let message :=
        map (fun file =>
               let relativePath := toPosix (Path.relative processCwd c file) in
               if Path.endsWithSep file then relativePath +:+ "/"
               else relativePath)
            (firstn maxContextFiles (filePaths t)) in
      if providerAlive t then setPosted (posted t ++ [message]) t else t
  end.

(** The part of [triggerWorkspaceDidUpdate] that runs at once; what the
    timer does when it fires is [timerCallback] below. *)
Definition triggerWorkspaceDidUpdate (t : Tracker) : Tracker :=
  let t1 :=
    match workspaceDidUpdateTimeout t with
    | Some id => clearTimeout id t
    | None => t
    end in
  setTimeout t1.

Definition shouldIgnoreGlob (filePath : string) (exclusionGlobs : list string)
    (t : Tracker) : Completion bool * Tracker :=
  let '(r, g) := shouldIgnoreFile (disk t) filePath [] (gitIgnoreProcessor t) in
  let t' := setGitIgnoreProcessor g t in
  match r with
  | Normal true => (Normal true, t')
  | Normal false =>
      match isMatch filePath exclusionGlobs with
      | Some matched => (Normal matched, t')
      | None => (Thrown, t')
      end
  | Thrown => (Thrown, t')
  | Unfinished => (Unfinished, t')
  end.

Definition removeFilePath (filePath : string) (t : Tracker) : bool * Tracker :=
  let normalizedPath := normalizeFilePath filePath in
  let '(isFile, paths1) := setDelete normalizedPath (filePaths t) in
  let t1 := setFilePaths paths1 t in
  let t2 := if negb isFile then setNeedReInit true t1 else t1 in
  let t3 :=
    if String.eqb (Path.basename normalizedPath) ".gitignore" then
      setNeedReInit true
        (setGitIgnoreProcessor (clearCache (gitIgnoreProcessor t2)) t2)
    else t2 in
  if isFile then (true, t3)
  else
    let '(isDir, paths2) := setDelete (normalizedPath +:+ "/") (filePaths t3) in
    (isDir, setFilePaths paths2 t3).

Definition incrementEventAndDetectFlood (t : Tracker) : Tracker :=
  let old := eventCount t in
  let t1 := setEventCount (S old) t in
  if Nat.ltb EVENT_FLOOD_SZ old then setNeedReInit true t1 else t1.

(** The body of [addFilePath] once the [stat] has settled: [Some isDirectory]
    when it fulfilled, [None] when it rejected and the [catch] runs. *)
Definition addFilePathSettled (normalizedPath : string) (stat : option bool)
    (t : Tracker) : string * Tracker :=
  match stat with
  | Some isDirectory =>
      let pathWithSlash :=
        if isDirectory && negb (Path.endsWithSep normalizedPath)
        then normalizedPath +:+ "/" else normalizedPath in
      let t1 := if isDirectory then setNeedReInit true t else t in
      let t2 :=
        if String.eqb (Path.basename normalizedPath) ".gitignore" then
          setNeedReInit true
            (setGitIgnoreProcessor (clearCache (gitIgnoreProcessor t1)) t1)
        else t1 in
      (pathWithSlash, setFilePaths (setAdd pathWithSlash (filePaths t2)) t2)
  | None =>
      (normalizedPath, setFilePaths (setAdd normalizedPath (filePaths t)) t)
  end.

(** The body of [initializeFilePaths] after [await listFiles(...)]. *)
Definition initializeFilePathsSettled (files : list string) (t : Tracker)
  : Tracker :=
  let paths := fold_left (fun acc file => setAdd (normalizeFilePath file) acc)
                         files [] in
  workspaceDidUpdate (setNeedReInit false (setFilePaths paths t)).

End Tracker.

(** ** Asynchronous methods

    An [async] function is a tree of synchronous stretches separated by
    [await]s.  [Stat] and [ListFiles] are the two awaited calls of the
    tracker, [vscode.workspace.fs.stat] and [listFiles]; their
    continuations take [None] when the awaited promise rejects.  [Detach]
    is a call to an async function whose promise is dropped. *)

Inductive Async (A : Type) : Type :=
| Ret (a : A)
| Throw
| Loop
| Get (k : Tracker -> Async A)
| Put (t : Tracker) (k : Async A)
| Stat (path : string) (k : option bool -> Async A)
| ListFiles (root : string) (recursive : bool) (limit : nat)
    (k : option (list string) -> Async A)
| Detach (child : Async unit) (k : Async A).
Arguments Ret {A} a.
Arguments Throw {A}.
Arguments Loop {A}.
Arguments Get {A} k.
Arguments Put {A} t k.
Arguments Stat {A} path k.
Arguments ListFiles {A} root recursive limit k.
Arguments Detach {A} child k.

Fixpoint bind {A B : Type} (m : Async A) (f : A -> Async B) : Async B :=
  match m with
  | Ret a => f a
  | Throw => Throw
  | Loop => Loop
  | Get k => Get (fun t => bind (k t) f)
  | Put t k => Put t (bind k f)
  | Stat p k => Stat p (fun r => bind (k r) f)
  | ListFiles root rec lim k => ListFiles root rec lim (fun r => bind (k r) f)
  | Detach c k => Detach c (bind k f)
  end.

Notation "'do' x <- m ;; k" := (bind m (fun x => k))
  (at level 10, x name, m at level 99, k at level 200).
Notation "m ;; k" := (bind m (fun _ => k))
  (at level 100, right associativity).

Definition modify (f : Tracker -> Tracker) : Async unit :=
  Get (fun t => Put (f t) (Ret tt)).

(** A synchronous method that returns a value and may throw or hang. *)
Definition call {A} (f : Tracker -> Completion A * Tracker) : Async A :=
  Get (fun t =>
         let '(r, t') := f t in
         Put t' (match r with
                 | Normal a => Ret a
                 | Thrown => Throw
                 | Unfinished => Loop
                 end)).

Definition callTotal {A} (f : Tracker -> A * Tracker) : Async A :=
  Get (fun t => let '(a, t') := f t in Put t' (Ret a)).

Section Methods.
Context `{Host}.

Definition addFilePath (filePath : string) : Async string :=
  let normalizedPath := normalizeFilePath filePath in
  Stat normalizedPath
       (fun stat => callTotal (addFilePathSettled normalizedPath stat)).

Definition initializeFilePaths : Async unit :=
  match cwdRoot with
  | None => Ret tt
  | Some c =>
      let maxContextFiles := 1000 in
      modify (setFilePaths []) ;;
      ListFiles c true maxContextFiles
        (fun r =>
           match r with
           | Some files => modify (initializeFilePathsSettled files)
           | None => Throw
           end)
  end.

(** The three tasks that [registerFileSystemWatcher] queues. *)
Definition onDidCreate (fsPath : string) : Async unit :=
  modify incrementEventAndDetectFlood ;;
  do ignored <- call (shouldIgnoreGlob fsPath getDirsToIgnore) ;;
  if (ignored : bool) then Ret tt
  else
    addFilePath fsPath ;;
    modify triggerWorkspaceDidUpdate.

Definition onDidDelete (fsPath : string) : Async unit :=
  modify incrementEventAndDetectFlood ;;
  do ignored <- call (shouldIgnoreGlob fsPath getDirsToIgnore) ;;
  if (ignored : bool) then Ret tt
  else
    do removed <- callTotal (removeFilePath fsPath) ;;
    if (removed : bool) then modify triggerWorkspaceDidUpdate else Ret tt.

Definition onDidChange (fsPath : string) : Async unit :=
  modify incrementEventAndDetectFlood ;;
  do ignored <- call (shouldIgnoreGlob fsPath getDirsToIgnore) ;;
  if (ignored : bool) then Ret tt
  else
    callTotal (removeFilePath fsPath) ;;
    addFilePath fsPath ;;
    modify triggerWorkspaceDidUpdate.

(** The task queued by the timer when a re-scan is needed:
    [async () => { this.initializeFilePaths() }], a call without [await]. *)
Definition reinitTask : Async unit :=
  Detach initializeFilePaths (Ret tt).

End Methods.

(** ** Running asynchronous code

    [exec] runs a call up to its first [await] or to its end.  Calling an
    async function never throws into the caller: a detached call that
    suspends is parked in [detached], one that rejects is an unhandled
    rejection and the caller goes on. *)

Inductive Awaiting (A : Type) : Type :=
| AwaitingStat (path : string) (k : option bool -> Async A)
| AwaitingList (root : string) (recursive : bool) (limit : nat)
    (k : option (list string) -> Async A).
Arguments AwaitingStat {A} path k.
Arguments AwaitingList {A} root recursive limit k.

Inductive Outcome (A : Type) : Type :=
| Fulfilled (a : A)
| Rejected
| Suspended (w : Awaiting A)
| Hung.
Arguments Fulfilled {A} a.
Arguments Rejected {A}.
Arguments Suspended {A} w.
Arguments Hung {A}.

Fixpoint exec {A : Type} (m : Async A) (t : Tracker)
    (detached : list (Awaiting unit))
  : Tracker * list (Awaiting unit) * Outcome A :=
  match m with
  | Ret a => (t, detached, Fulfilled a)
  | Throw => (t, detached, Rejected)
  | Loop => (t, detached, Hung)
  | Get k => exec (k t) t detached
  | Put t' k => exec k t' detached
  | Stat p k => (t, detached, Suspended (AwaitingStat p k))
  | ListFiles root rec lim k =>
      (t, detached, Suspended (AwaitingList root rec lim k))
  | Detach child k =>
      let '(t1, d1, o) := exec child t detached in
      match o with
      | Suspended w => exec k t1 (d1 ++ [w])
      | Hung => (t1, d1, Hung)
      | Fulfilled _ | Rejected => exec k t1 d1
      end
  end.

(** What an awaited call settles with. *)
Inductive Response : Type :=
| StatResult (r : option bool)
| ListResult (r : option (list string)).

Definition resume {A} (w : Awaiting A) (r : Response) : option (Async A) :=
  match w, r with
  | AwaitingStat _ k, StatResult s => Some (k s)
  | AwaitingList _ _ _ k, ListResult l => Some (k l)
  | _, _ => None
  end.

(** ** The promise chain and the event loop

    [addEventToNotifyQueue] replaces [notifyQueue] by
    [notifyQueue.then(() => task()).catch((err) => {})].  The links that
    have not started yet are kept in [notifyQueue], oldest first;
    [chainSettled] is how the promise in front of them settled.  A [then]
    handler is skipped when the promise it is attached to rejected, and
    the [catch] handler returns normally, so the promise it yields
    fulfils whatever it is given. *)

Inductive Settlement : Type := SettledFulfilled | SettledRejected.

Definition catchHandler (s : Settlement) : Settlement := SettledFulfilled.

Record Runtime := {
  tracker : Tracker;
  notifyQueue : list (Async unit);
  chainSettled : Settlement;
  running : option (Awaiting unit);
  detached : list (Awaiting unit);
  hung : bool;
}.

Definition addEventToNotifyQueue (task : Async unit) (r : Runtime) : Runtime :=
  {| tracker := tracker r;
     notifyQueue := notifyQueue r ++ [task];
     chainSettled := chainSettled r;
     running := running r;
     detached := detached r;
     hung := hung r |}.

Definition setTracker (t : Tracker) (r : Runtime) : Runtime :=
  {| tracker := t; notifyQueue := notifyQueue r;
     chainSettled := chainSettled r; running := running r;
     detached := detached r; hung := hung r |}.

(** The link of the chain that is executing has reached [o].  A link
    executes only behind a fulfilled promise, which is what [chainSettled]
    keeps saying while the link is suspended. *)
Definition linkReaches (rest : list (Async unit))
    (res : Tracker * list (Awaiting unit) * Outcome unit) : Runtime :=
  let '(t, d, o) := res in
  match o with
  | Fulfilled _ =>
      {| tracker := t; notifyQueue := rest;
         chainSettled := catchHandler SettledFulfilled;
         running := None; detached := d; hung := false |}
  | Rejected =>
      {| tracker := t; notifyQueue := rest;
         chainSettled := catchHandler SettledRejected;
         running := None; detached := d; hung := false |}
  | Suspended w =>
      {| tracker := t; notifyQueue := rest;
         chainSettled := SettledFulfilled;
         running := Some w; detached := d; hung := false |}
  | Hung =>
      {| tracker := t; notifyQueue := rest;
         chainSettled := SettledFulfilled;
         running := None; detached := d; hung := true |}
  end.

(** A detached call has reached [o]; its place in [detached] is [i]. *)
Definition detachedReaches (r : Runtime) (i : nat)
    (res : Tracker * list (Awaiting unit) * Outcome unit) : Runtime :=
  let '(t, d, o) := res in
  let others := firstn i d ++ skipn (S i) d in
  {| tracker := t; notifyQueue := notifyQueue r;
     chainSettled := chainSettled r; running := running r;
     detached := match o with Suspended w => others ++ [w] | _ => others end;
     hung := match o with Hung => true | _ => false end |}.

Section EventLoop.
Context `{Host}.

(** The callback given to [setTimeout] in [triggerWorkspaceDidUpdate]. *)
Definition timerCallback (r : Runtime) : Runtime :=
  let r1 :=
    if needReInit (tracker r) then addEventToNotifyQueue reinitTask r
    else setTracker (workspaceDidUpdate (tracker r)) r in
  setTracker (setEventCount 0 (tracker r1)) r1.

(** What can happen next.  [Job] is the promise job that starts the next
    link of the chain; [Settles None] settles the call the running link
    awaits, [Settles (Some i)] the one a detached call awaits. *)
Inductive Input : Type :=
| FileCreated (fsPath : string)
| FileDeleted (fsPath : string)
| FileChanged (fsPath : string)
| Submit (task : Async unit)
| CallInitializeFilePaths
| TimerFires (id : nat)
| Job
| Settles (who : option nat) (res : Response)
| DiskBecomes (d : Disk)
| ProviderCollected.

Definition watching : bool :=
  match cwdRoot with Some _ => true | None => false end.

Definition step (r : Runtime) (i : Input) : option Runtime :=
  if hung r then None
  else
    match i with
    | FileCreated p =>
        if watching then Some (addEventToNotifyQueue (onDidCreate p) r) else None
    | FileDeleted p =>
        if watching then Some (addEventToNotifyQueue (onDidDelete p) r) else None
    | FileChanged p =>
        if watching then Some (addEventToNotifyQueue (onDidChange p) r) else None
    | Submit task => Some (addEventToNotifyQueue task r)
    | CallInitializeFilePaths =>
        let '(t, d, o) := exec initializeFilePaths (tracker r) (detached r) in
        Some {| tracker := t; notifyQueue := notifyQueue r;
                chainSettled := chainSettled r; running := running r;
                detached := match o with Suspended w => d ++ [w] | _ => d end;
                hung := match o with Hung => true | _ => false end |}
    | TimerFires id =>
        if existsb (Nat.eqb id) (liveTimers (tracker r)) then
          Some (timerCallback (setTracker (clearTimeout id (tracker r)) r))
        else None
    | Job =>
        match running r, notifyQueue r with
        | None, task :: rest =>
            match chainSettled r with
            | SettledFulfilled =>
                Some (linkReaches rest (exec task (tracker r) (detached r)))
            | SettledRejected =>
                Some {| tracker := tracker r; notifyQueue := rest;
                        chainSettled := catchHandler SettledRejected;
                        running := None; detached := detached r;
                        hung := false |}
            end
        | _, _ => None
        end
    | Settles None res =>
        match running r with
        | Some w =>
            match resume w res with
            | Some m =>
                Some (linkReaches (notifyQueue r)
                        (exec m (tracker r) (detached r)))
            | None => None
            end
        | None => None
        end
    | Settles (Some i) res =>
        match nth_error (detached r) i with
        | Some w =>
            match resume w res with
            | Some m =>
                Some (detachedReaches r i (exec m (tracker r) (detached r)))
            | None => None
            end
        | None => None
        end
    | DiskBecomes d => Some (setTracker (setDisk d (tracker r)) r)
    | ProviderCollected =>
        Some (setTracker (setProviderAlive false (tracker r)) r)
    end.

Fixpoint steps (r : Runtime) (inputs : list Input) : option Runtime :=
  match inputs with
  | [] => Some r
  | i :: rest =>
      match step r i with
      | Some r' => steps r' rest
      | None => None
      end
  end.

Definition newRuntime (d : Disk) : Runtime :=
  {| tracker := newTracker d; notifyQueue := [];
     chainSettled := SettledFulfilled; running := None;
     detached := []; hung := false |}.

End EventLoop.

(** ** Vocabulary of the properties *)

(** A path segment that names an entry: not empty, not ["."], not [".."],
    and free of separators. *)
Definition isName (s : string) : bool :=
  negb (String.eqb s "") && negb (String.eqb s ".") && negb (String.eqb s "..")
  && forallb Path.notSep (list_ascii_of_string s).

(** A string free of separators. *)
Definition hasNoSep (s : string) : Prop :=
  forallb Path.notSep (list_ascii_of_string s) = true.

(** The directory reached from [root] through [names], innermost name
    first, and the directories walked from it up to [root]. *)
Fixpoint pathOf (root : string) (names : list string) : string :=
  match names with
  | [] => root
  | n :: up => pathOf root up +:+ String Path.sep n
  end.

Fixpoint ancestors (root : string) (names : list string) : list string :=
  pathOf root names ::
  match names with
  | [] => []
  | _ :: up => ancestors root up
  end.

(** The merged ruleset in the words of the specification: the contents of
    the [.gitignore] of every directory from the containing directory up
    to the project root, an unreadable file contributing nothing. *)
Definition gitignoreContents (d : Disk) (dir : string) : list string :=
  let file := Path.joinPaths [dir; ".gitignore"] in
  if existsSync d file then
    match readFileSync d file with
    | Some content => [content]
    | None => []
    end
  else [].

Definition mergedRuleset (d : Disk) (root : string) (names : list string)
  : list string :=
  flat_map (gitignoreContents d) (ancestors root names).

(** The processors whose cache was filled on the disk [d] only: a new or
    cleared one, and any it becomes by answering queries on [d]. *)
Inductive SinceClear `{Host} (d : Disk) : GitIgnoreProcessor -> Prop :=
| since_new (root : string) : SinceClear d (newGitIgnoreProcessor root)
| since_clear (g : GitIgnoreProcessor) : SinceClear d (clearCache g)
| since_query (g : GitIgnoreProcessor) (filePath : string)
    (globs : list string) :
    SinceClear d g ->
    SinceClear d (snd (shouldIgnoreFile d filePath globs g)).

(** Every cached ruleset is what the walk yields on [d]. *)
Definition cacheCoherent (d : Disk) (g : GitIgnoreProcessor) : Prop :=
  forall dir rules,
    gitignoreCache g !! dir = Some rules ->
    walkUp (walkFuel dir) d (workspacePath g) dir [] = Some rules.

(** How many rounds are still to come from [p]: none after ["."], since
    a non-empty root that is a prefix of ["."] is ["."] itself. *)
Definition roundsFrom (p : string) : nat :=
  if String.eqb p "." then 0 else S (String.length p).

(** The path that [normalizeFilePath] resolves its argument to, before
    the trailing separator is put back. *)
Definition resolved `{Host} (filePath : string) : string :=
  match cwdRoot with
  | Some c => Path.resolve processCwd [c; filePath]
  | None => Path.resolve processCwd [filePath]
  end.

(** ** A small project used in examples

    Root [/proj]; [/proj/.gitignore] holds [build], [/proj/sub/.gitignore]
    holds [tmp].  The stand-in for the [ignore] package matches a path
    when it equals one of the added contents; the stand-in for
    [micromatch] compares with the globs literally and throws when one of
    them is the empty string. *)

Definition demoHost : Host :=
  {| cwd := Some "/proj";
     processCwd := "/home/user";
     ignores := fun rules p => Some (existsb (String.eqb p) rules);
     isMatch := fun p globs =>
       if existsb (String.eqb "") globs then None
       else Some (existsb (String.eqb p) globs);
     getDirsToIgnore := ["/proj/node_modules"];
     toPosix := fun s => s |}.

(** The same surroundings without a workspace folder. *)
Definition desktopHost : Host :=
  {| cwd := None;
     processCwd := "/home/user";
     ignores := fun rules p => Some (existsb (String.eqb p) rules);
     isMatch := fun p globs =>
       if existsb (String.eqb "") globs then None
       else Some (existsb (String.eqb p) globs);
     getDirsToIgnore := ["/proj/node_modules"];
     toPosix := fun s => s |}.

Definition demoDisk : Disk :=
  {| existsSync := fun p =>
       String.eqb p "/proj/.gitignore" || String.eqb p "/proj/sub/.gitignore";
     readFileSync := fun p =>
       if String.eqb p "/proj/.gitignore" then Some "build"
       else if String.eqb p "/proj/sub/.gitignore" then Some "tmp"
       else None |}.

Definition demoTracker : Tracker := @newTracker demoHost demoDisk.

(** A tracker that already answered a query in [/proj], so that its cache
    is not empty. *)
Definition warmTracker : Tracker :=
  snd (@shouldIgnoreGlob demoHost "/proj/a.txt" [] demoTracker).

(** [n] raw creation events for a path that the ignore rules filter out,
    each handled before the next arrives. *)
Fixpoint ignoredEvents (n : nat) : list Input :=
  match n with
  | O => []
  | S n' => FileCreated "/proj/build" :: Job :: ignoredEvents n'
  end.

(** A directory appears, the debounce timer fires and queues the re-scan;
    while the listing is under way [/proj/a] is created and deleted; then
    the listing, taken while [/proj/a] existed, arrives. *)
Definition rescanRace : list Input :=
  [ FileCreated "/proj/d"; Job; Settles None (StatResult (Some true));
    TimerFires 0; Job;
    FileCreated "/proj/a"; Job ].

Definition rescanRaceEnd : list Input :=
  [ Settles None (StatResult (Some false));
    FileDeleted "/proj/a"; Job;
    Settles (Some 0) (ListResult (Some ["/proj/a"; "/proj/d/"])) ].

(** The demo disk after [/proj/.gitignore] was rewritten to hold [notes]. *)
Definition editedDisk : Disk :=
  {| existsSync := existsSync demoDisk;
     readFileSync := fun p =>
       if String.eqb p "/proj/.gitignore" then Some "notes"
       else readFileSync demoDisk p |}.

(** A tracker of the demo project that follows a file and a directory. *)
Definition trackedDemo : Tracker :=
  setFilePaths ["/proj/a.txt"; "/proj/sub/"] demoTracker.


(** What a suspended call is waiting for, for display. *)
Definition awaited {A} (w : Awaiting A) : string :=
  match w with
  | AwaitingStat path _ => "stat " +:+ path
  | AwaitingList root _ _ _ => "listFiles " +:+ root
  end.

(** A task that throws at once, one that throws after a [stat], and one
    that marks its passage by raising the flag. *)
Definition failingTask : Async unit := Throw.

Definition failingAfterStat : Async unit :=
  Stat "/proj/x" (fun _ => Throw).

Definition markingTask : Async unit := modify (setNeedReInit true).

(** ** Properties kept by asynchronous code

    [keeps P m]: started in a tracker that satisfies [P], and resumed in
    one that does, [m] only ever stores trackers that satisfy [P]. *)
Fixpoint keeps {A : Type} (P : Tracker -> Prop) (m : Async A) : Prop :=
  match m with
  | Ret _ | Throw | Loop => True
  | Get k => forall t, P t -> keeps P (k t)
  | Put t k => P t /\ keeps P k
  | Stat _ k => forall r, keeps P (k r)
  | ListFiles _ _ _ k => forall r, keeps P (k r)
  | Detach child k => keeps P child /\ keeps P k
  end.

Definition awaitingKeeps {A : Type} (P : Tracker -> Prop) (w : Awaiting A)
  : Prop :=
  match w with
  | AwaitingStat _ k => forall r, keeps P (k r)
  | AwaitingList _ _ _ k => forall r, keeps P (k r)
  end.

(** Tasks submitted from outside are arbitrary; the other inputs run the
    tracker's own code. *)
Definition inputKeeps (P : Tracker -> Prop) (i : Input) : Prop :=
  match i with
  | Submit task => keeps P task
  | _ => True
  end.

Definition runtimeKeeps (P : Tracker -> Prop) (r : Runtime) : Prop :=
  P (tracker r)
  /\ Forall (keeps P) (notifyQueue r)
  /\ (forall w, running r = Some w -> awaitingKeeps P w)
  /\ Forall (awaitingKeeps P) (detached r).

(** At most one timer is pending, it is the one whose handle the tracker
    holds, and handles are older than the next one to be given out. *)
Definition singleTimer (t : Tracker) : Prop :=
  (liveTimers t = []
   \/ exists id, workspaceDidUpdateTimeout t = Some id /\ liveTimers t = [id])
  /\ forall id, workspaceDidUpdateTimeout t = Some id -> id < nextTimerId t.

(** [t'] has the timers of [t]. *)
Definition sameTimers (t t' : Tracker) : Prop :=
  workspaceDidUpdateTimeout t' = workspaceDidUpdateTimeout t
  /\ liveTimers t' = liveTimers t
  /\ nextTimerId t' = nextTimerId t.

(** The demo tracker with the debounce timer armed once. *)
Definition armedTracker : Tracker :=
  triggerWorkspaceDidUpdate (setFilePaths ["/proj/a.txt"] demoTracker).

(** A runtime of the demo project whose timer is pending. *)
Definition armedRuntime : Runtime :=
  setTracker armedTracker (@newRuntime demoHost demoDisk).

(** A runtime of the demo project in which the handling of the creation
    of [/proj/a] awaits its [stat]. *)
Definition statPending : Runtime :=
  match @steps demoHost (@newRuntime demoHost demoDisk)
          [FileCreated "/proj/a"; Job] with
  | Some r => r
  | None => @newRuntime demoHost demoDisk
  end.

(** The re-scan flag is up. *)
Definition flagRaised (t : Tracker) : Prop := needReInit t = true.

(** The disk [d] with every [.gitignore] that cannot be read taken away. *)
Definition readableOnly (d : Disk) : Disk :=
  {| existsSync := fun p =>
       existsSync d p
       && match readFileSync d p with Some _ => true | None => false end;
     readFileSync := readFileSync d |}.

(** The processor of the tracker has a root that is not the empty string. *)
Definition rooted (t : Tracker) : Prop :=
  workspacePath (gitIgnoreProcessor t) <> "".

(** A disk with the project [/home/proj] and, next to it, [/home/proj-old]. *)
Definition siblingDisk : Disk :=
  {| existsSync := fun p =>
       String.eqb p "/home/proj/.gitignore"
       || String.eqb p "/home/proj-old/.gitignore";
     readFileSync := fun p =>
       if String.eqb p "/home/proj/.gitignore" then Some "build"
       else if String.eqb p "/home/proj-old/.gitignore" then Some "dist"
       else None |}.

(** The demo tracker after the filter answered for [/proj/build]. *)
Definition filteredTracker : Tracker :=
  snd (@shouldIgnoreGlob demoHost "/proj/build" (@getDirsToIgnore demoHost)
         (incrementEventAndDetectFlood demoTracker)).

(** The warm tracker after the filter answered for [/proj/.gitignore]. *)
Definition gitignoreFiltered : Tracker :=
  snd (@shouldIgnoreGlob demoHost "/proj/.gitignore" (@getDirsToIgnore demoHost)
         (incrementEventAndDetectFlood warmTracker)).

(** The tracked demo tracker after the filter answered for [fsPath]. *)
Definition afterFilter (fsPath : string) : Tracker :=
  snd (@shouldIgnoreGlob demoHost fsPath (@getDirsToIgnore demoHost)
         (incrementEventAndDetectFlood trackedDemo)).

(** A disk whose file-system root holds a [.gitignore] with [a.txt]. *)
Definition rootDisk : Disk :=
  {| existsSync := fun p => String.eqb p "/.gitignore";
     readFileSync := fun p =>
       if String.eqb p "/.gitignore" then Some "a.txt" else None |}.

(** A disk with a [.gitignore] holding [x] in the working directory of
    the process, which is where the relative path [.gitignore] leads. *)
Definition relativeDisk : Disk :=
  {| existsSync := fun p => String.eqb p ".gitignore";
     readFileSync := fun p =>
       if String.eqb p ".gitignore" then Some "x" else None |}.



(** * Facts about strings and paths *)

Section PathFacts.
Import Path.

Lemma append_cons c a b : String c a +:+ b = String c (a +:+ b).
Proof. reflexivity. Qed.

Lemma append_empty_l a : "" +:+ a = a.
Proof. reflexivity. Qed.

Lemma append_empty_r a : a +:+ "" = a.
Proof. induction a as [|c a IH]; [reflexivity|]. rewrite append_cons, IH. reflexivity. Qed.

Lemma append_assoc a b c : (a +:+ b) +:+ c = a +:+ (b +:+ c).
Proof.
  induction a as [|x a IH]; [reflexivity|].
  rewrite !append_cons, IH. reflexivity.
Qed.

Lemma length_append a b :
  String.length (a +:+ b) = String.length a + String.length b.
Proof.
  induction a as [|x a IH]; [reflexivity|].
  rewrite append_cons. simpl. rewrite IH. reflexivity.
Qed.

Lemma chars_append a b :
  list_ascii_of_string (a +:+ b)
  = list_ascii_of_string a ++ list_ascii_of_string b.
Proof.
  induction a as [|x a IH]; [reflexivity|].
  rewrite append_cons. simpl. rewrite IH. reflexivity.
Qed.

Lemma prefix_append a b : String.prefix a (a +:+ b) = true.
Proof.
  induction a as [|x a IH]; [destruct b; reflexivity|].
  rewrite append_cons. simpl.
  destruct (ascii_dec x x) as [_|n]; [exact IH | contradiction].
Qed.

Lemma isSep_sep : isSep sep = true.
Proof. reflexivity. Qed.

(** ** [split] and [join] *)

Lemma split_nonempty s : exists h t, split s = h :: t.
Proof.
  destruct s as [|c r]; simpl; [eauto|].
  destruct (isSep c); [eauto|].
  destruct (split r); eauto.
Qed.

Lemma split_append a b : split (a +:+ String sep b) = split a ++ split b.
Proof.
  induction a as [|c a IH].
  - reflexivity.
  - rewrite append_cons. simpl. rewrite IH.
    destruct (isSep c); [reflexivity|].
    destruct (split_nonempty a) as (h & t & ->). reflexivity.
Qed.

Lemma split_hasNoSep s : hasNoSep s -> split s = [s].
Proof.
  unfold hasNoSep. induction s as [|c r IH]; [reflexivity|].
  simpl. unfold notSep at 1. intros Hc.
  apply andb_true_iff in Hc as [Hc Hr].
  apply negb_true_iff in Hc. rewrite Hc, (IH Hr). reflexivity.
Qed.

Lemma split_parts s : Forall hasNoSep (split s).
Proof.
  induction s as [|c r IH]; simpl.
  - constructor; [reflexivity | constructor].
  - destruct (isSep c) eqn:Hc.
    + constructor; [reflexivity | exact IH].
    + assert (Hcons : forall h, hasNoSep h -> hasNoSep (String c h)).
      { intros h Hh. unfold hasNoSep in *. simpl.
        unfold notSep at 1. rewrite Hc. exact Hh. }
      destruct (split r) as [|h t].
      * constructor; [apply Hcons; reflexivity | constructor].
      * inversion IH; subst. constructor; [apply Hcons|]; assumption.
Qed.

Lemma isName_spec s :
  isName s = true <-> s <> "" /\ s <> "." /\ s <> ".." /\ hasNoSep s.
Proof.
  unfold isName, hasNoSep.
  rewrite !andb_true_iff, !negb_true_iff, !String.eqb_neq. tauto.
Qed.

Lemma isName_hasNoSep s : isName s = true -> hasNoSep s.
Proof. intros Hs. apply isName_spec in Hs. tauto. Qed.

Lemma split_join names :
  Forall (fun n => isName n = true) names -> names <> [] ->
  split (join names) = names.
Proof.
  induction names as [|x r IH]; [congruence|].
  intros Hall _. inversion Hall as [|? ? Hx Hr]; subst.
  destruct r as [|y r'].
  - simpl. apply split_hasNoSep, isName_hasNoSep, Hx.
  - change (join (x :: y :: r')) with (x +:+ String sep (join (y :: r'))).
    rewrite split_append, IH by (assumption || congruence).
    rewrite split_hasNoSep by (apply isName_hasNoSep, Hx). reflexivity.
Qed.

(** ** [normalizeSegs] *)

Lemma normalizeSegs_app f xs : forall acc ys,
  normalizeSegs f acc (xs ++ ys)
  = normalizeSegs f (rev (normalizeSegs f acc xs)) ys.
Proof.
  induction xs as [|s r IH]; intros acc ys.
  - simpl. rewrite rev_involutive. reflexivity.
  - simpl.
    destruct (String.eqb s "" || String.eqb s "."); [apply IH|].
    destruct (String.eqb s "..").
    + destruct acc as [|t acc']; [apply IH|].
      destruct (String.eqb t ".."); apply IH.
    + apply IH.
Qed.

Lemma normalizeSegs_names names : forall acc,
  Forall (fun n => isName n = true) names ->
  normalizeSegs false acc names = rev acc ++ names.
Proof.
  induction names as [|s r IH]; intros acc Hall.
  - simpl. rewrite app_nil_r. reflexivity.
  - inversion Hall as [|? ? Hs Hr]; subst.
    apply isName_spec in Hs as (H1 & H2 & H3 & _).
    apply String.eqb_neq in H1, H2, H3.
    simpl. rewrite H1, H2, H3. simpl.
    rewrite IH by assumption. simpl. rewrite <- app_assoc. reflexivity.
Qed.

Lemma normalizeSegs_empties f acc empties :
  Forall (fun s => s = "") empties ->
  normalizeSegs f acc empties = rev acc.
Proof.
  induction 1 as [|s r Hs _ IH]; [reflexivity|].
  subst s. simpl. exact IH.
Qed.

Lemma normalizeSegs_isName segs : forall acc,
  Forall (fun n => isName n = true) acc ->
  Forall hasNoSep segs ->
  Forall (fun n => isName n = true) (normalizeSegs false acc segs).
Proof.
  induction segs as [|s r IH]; intros acc Hacc Hsegs.
  - simpl. apply Forall_rev. exact Hacc.
  - inversion Hsegs as [|? ? Hs Hr]; subst. simpl.
    destruct (String.eqb s "") eqn:E1; [apply IH; assumption|].
    destruct (String.eqb s ".") eqn:E2; [apply IH; assumption|].
    simpl.
    destruct (String.eqb s "..") eqn:E3.
    + destruct acc as [|t acc']; [apply IH; assumption|].
      inversion Hacc; subst.
      destruct (String.eqb t ".."); apply IH; assumption.
    + apply IH; [|assumption]. constructor; [|assumption].
      apply isName_spec. apply String.eqb_neq in E1, E2, E3. tauto.
Qed.

End PathFacts.

Section ResolveFacts.
Import Path.

Abbreviation names_ok names := (Forall (fun n => isName n = true) names).

Lemma isAbsolute_nonempty p : isAbsolute p = true -> String.eqb p "" = false.
Proof. destruct p; [discriminate | reflexivity]. Qed.

Lemma resolveLoop_absolute pc rargs : forall acc,
  isAbsolute pc = true ->
  exists rp, resolveLoop (rargs ++ [pc]) acc = (rp, true).
Proof.
  induction rargs as [|p r IH]; intros acc Hpc; simpl.
  - rewrite (isAbsolute_nonempty _ Hpc), Hpc. eauto.
  - destruct (String.eqb p ""); [apply IH; assumption|].
    destruct (isAbsolute p); [eauto | apply IH; assumption].
Qed.

(** With an absolute working directory, [resolve] yields the separator
    followed by names joined by separators. *)
Lemma resolve_names pc args :
  isAbsolute pc = true ->
  exists names, names_ok names /\ resolve pc args = String sep (join names).
Proof.
  intros Hpc. unfold resolve.
  destruct (resolveLoop_absolute pc (rev args) "" Hpc) as [rp ->].
  simpl. unfold normalizeString.
  exists (normalizeSegs false [] (split rp)). split; [|reflexivity].
  apply normalizeSegs_isName; [constructor | apply split_parts].
Qed.

Lemma split_join_names names :
  names_ok names ->
  exists empties, Forall (fun s => s = "") empties /\
    split (join names) = names ++ empties.
Proof.
  intros Hn. destruct names as [|x r].
  - exists [""]. split; [repeat constructor | reflexivity].
  - exists []. split; [constructor|].
    rewrite (split_join (x :: r)) by (assumption || congruence).
    rewrite app_nil_r. reflexivity.
Qed.

Lemma normalize_names_empties names empties :
  names_ok names -> Forall (fun s => s = "") empties ->
  normalizeSegs false [] (names ++ empties) = names.
Proof.
  intros Hn He.
  rewrite normalizeSegs_app, (normalizeSegs_names names) by assumption.
  simpl. rewrite normalizeSegs_empties by assumption.
  apply rev_involutive.
Qed.

(** Resolving an already resolved path, with or without one trailing
    separator, gives it back. *)
Lemma resolve_resolved pc args names tail :
  names_ok names -> tail = "" \/ tail = "/" ->
  resolve pc (args ++ [String sep (join names) +:+ tail])
  = String sep (join names).
Proof.
  intros Hn Htail. unfold resolve.
  rewrite rev_app_distr. simpl.
  unfold normalizeString. simpl. f_equal. f_equal.
  destruct (split_join_names names Hn) as (empties & He & Hsplit).
  rewrite split_append.
  destruct Htail as [-> | ->].
  - rewrite append_empty_r, Hsplit, <- app_assoc.
    apply normalize_names_empties; [assumption|].
    apply Forall_app; split; [assumption | repeat constructor].
  - change (join names +:+ "/") with (join names +:+ String sep "").
    rewrite split_append, Hsplit, <- !app_assoc.
    apply normalize_names_empties; [assumption|].
    repeat (apply Forall_app; split); try assumption; repeat constructor.
Qed.

(** ** [endsWithSep] *)

Lemma endsWithSep_append a b :
  b <> "" -> endsWithSep (a +:+ b) = endsWithSep b.
Proof.
  intros Hb. induction a as [|c a IH]; [reflexivity|].
  rewrite append_cons. simpl.
  destruct (a +:+ b) eqn:E; [|exact IH].
  destruct a; [rewrite append_empty_l in E; congruence | discriminate].
Qed.

Lemma endsWithSep_append_sep a : endsWithSep (a +:+ "/") = true.
Proof. rewrite endsWithSep_append by discriminate. reflexivity. Qed.

Lemma endsWithSep_hasNoSep s : hasNoSep s -> endsWithSep s = false.
Proof.
  unfold hasNoSep. induction s as [|c r IH]; [reflexivity|].
  simpl. unfold notSep at 1. intros H.
  apply andb_true_iff in H as [Hc Hr]. apply negb_true_iff in Hc.
  destruct r; [exact Hc | apply IH, Hr].
Qed.

Lemma join_nonempty names :
  names_ok names -> names <> [] -> join names <> "".
Proof.
  intros Hn Hne. destruct names as [|x r]; [congruence|].
  inversion Hn as [|? ? Hx _]; subst.
  apply isName_spec in Hx as (Hx & _).
  destruct r; simpl; [exact Hx|].
  destruct x; [congruence | discriminate].
Qed.

Lemma endsWithSep_join names :
  names_ok names -> names <> [] -> endsWithSep (join names) = false.
Proof.
  induction names as [|x r IH]; [congruence|].
  intros Hn _. inversion Hn as [|? ? Hx Hr]; subst.
  destruct r as [|y r'].
  - simpl. apply endsWithSep_hasNoSep, isName_hasNoSep, Hx.
  - change (join (x :: y :: r')) with (x +:+ String sep (join (y :: r'))).
    rewrite endsWithSep_append by discriminate.
    change (String sep (join (y :: r'))) with ("/" +:+ join (y :: r')).
    rewrite endsWithSep_append by (apply join_nonempty; [assumption|congruence]).
    apply IH; [assumption | congruence].
Qed.

Lemma endsWithSep_root_names names :
  names_ok names -> names <> [] ->
  endsWithSep (String sep (join names)) = false.
Proof.
  intros Hn Hne.
  change (String sep (join names)) with ("/" +:+ join names).
  rewrite endsWithSep_append by (apply join_nonempty; assumption).
  apply endsWithSep_join; assumption.
Qed.

End ResolveFacts.

(** * Path normalization *)

Section Normalization.
Context `{Host}.

Lemma normalizeFilePath_unfold p :
  normalizeFilePath p
  = if Path.endsWithSep p then resolved p +:+ "/" else resolved p.
Proof. reflexivity. Qed.

Lemma resolved_names p :
  Path.isAbsolute processCwd = true ->
  exists names, Forall (fun n => isName n = true) names /\
    resolved p = String Path.sep (Path.join names).
Proof. intros Hpc. unfold resolved. destruct cwdRoot; apply resolve_names, Hpc. Qed.

Lemma resolved_again names tail :
  Forall (fun n => isName n = true) names -> tail = "" \/ tail = "/" ->
  resolved (String Path.sep (Path.join names) +:+ tail)
  = String Path.sep (Path.join names).
Proof.
  intros Hn Ht. unfold resolved. destruct cwdRoot as [c|].
  - apply (resolve_resolved processCwd [c]); assumption.
  - apply (resolve_resolved processCwd []); assumption.
Qed.

Lemma resolved_not_root_names p names :
  resolved p = String Path.sep (Path.join names) -> resolved p <> "/" ->
  names <> [].
Proof. intros E Hne ->. apply Hne. rewrite E. reflexivity. Qed.

(** C9, as amended: normalization is idempotent on every path that ends
    in the separator and on every path that does not resolve to the
    file-system root; the trailing separator of an input is kept; and an
    input without one that does not resolve to the root yields an output
    without one. *)
Theorem normalizeFilePath_idempotent_off_root (p : string) :
  Path.isAbsolute processCwd = true ->
  (Path.endsWithSep p = true ->
     normalizeFilePath (normalizeFilePath p) = normalizeFilePath p
     /\ Path.endsWithSep (normalizeFilePath p) = true)
  /\ (Path.endsWithSep p = false -> resolved p <> "/" ->
     normalizeFilePath (normalizeFilePath p) = normalizeFilePath p
     /\ Path.endsWithSep (normalizeFilePath p) = false).
Proof.
  intros Hpc.
  destruct (resolved_names p Hpc) as (names & Hn & Hres).
  split.
  - intros Hend.
    assert (Hnp : normalizeFilePath p = resolved p +:+ "/")
      by (rewrite normalizeFilePath_unfold, Hend; reflexivity).
    rewrite Hnp. split; [|apply endsWithSep_append_sep].
    rewrite normalizeFilePath_unfold, endsWithSep_append_sep.
    rewrite Hres, resolved_again by (auto; right; reflexivity).
    reflexivity.
  - intros Hend Hroot.
    assert (Hnp : normalizeFilePath p = resolved p)
      by (rewrite normalizeFilePath_unfold, Hend; reflexivity).
    assert (Hne : names <> []) by (eapply resolved_not_root_names; eassumption).
    assert (Hfalse : Path.endsWithSep (resolved p) = false)
      by (rewrite Hres; apply endsWithSep_root_names; assumption).
    rewrite Hnp. split; [|exact Hfalse].
    rewrite normalizeFilePath_unfold, Hfalse.
    rewrite Hres at 1.
    rewrite <- (append_empty_r (String Path.sep (Path.join names))) at 1.
    rewrite resolved_again by (auto; left; reflexivity).
    symmetry. exact Hres.
Qed.

End Normalization.

Lemma normalizeFilePath_idempotent_off_root_witness :
  (@normalizeFilePath demoHost (@normalizeFilePath demoHost "src/")
   = @normalizeFilePath demoHost "src/"
   /\ Path.endsWithSep (@normalizeFilePath demoHost "src/") = true)
  /\ (@normalizeFilePath demoHost (@normalizeFilePath demoHost "src/../a.txt")
      = @normalizeFilePath demoHost "src/../a.txt"
      /\ Path.endsWithSep (@normalizeFilePath demoHost "src/../a.txt") = false).
Proof.
  split.
  - apply (proj1 (@normalizeFilePath_idempotent_off_root demoHost "src/" eq_refl)).
    reflexivity.
  - apply (proj2 (@normalizeFilePath_idempotent_off_root demoHost "src/../a.txt" eq_refl)).
    + reflexivity.
    + vm_compute. discriminate.
Defined.

(** C9 as stated fails where a path without a trailing separator resolves
    to the root: [/.] normalizes to [/], which ends in the separator, and
    normalizing [/] gives [//]. *)
Lemma normalizeFilePath_not_idempotent_at_root :
  Path.endsWithSep "/." = false
  /\ @normalizeFilePath demoHost "/." = "/"
  /\ Path.endsWithSep (@normalizeFilePath demoHost "/.") = true
  /\ @normalizeFilePath demoHost (@normalizeFilePath demoHost "/.") = "//"
  /\ @normalizeFilePath demoHost (@normalizeFilePath demoHost "/.")
     <> @normalizeFilePath demoHost "/.".
Proof. vm_compute. repeat split; discriminate. Qed.

(** * The ignore rules *)

Section DirnameFacts.
Import Path.

Lemma dropWhile_isSep_keeps xs rest :
  xs <> [] -> forallb notSep xs = true ->
  dropWhile isSep (xs ++ rest) = xs ++ rest.
Proof.
  destruct xs as [|c xs]; [congruence|]. intros _ Hall. simpl in *.
  apply andb_true_iff in Hall as [Hc _].
  unfold notSep in Hc. apply negb_true_iff in Hc. rewrite Hc. reflexivity.
Qed.

Lemma dropWhile_notSep_stops xs rest :
  forallb notSep xs = true ->
  dropWhile notSep (xs ++ sep :: rest) = sep :: rest.
Proof.
  induction xs as [|c xs IH]; intros Hall; simpl in *.
  - reflexivity.
  - apply andb_true_iff in Hall as [Hc Hxs]. rewrite Hc. apply IH, Hxs.
Qed.

Lemma forallb_rev {A} (f : A -> bool) l :
  forallb f l = true -> forallb f (rev l) = true.
Proof.
  rewrite !forallb_forall. intros Hall x Hx. apply Hall, in_rev, Hx.
Qed.

(** The parent of [a/n] is [a], except that Node answers [//] when [a] is
    the root. *)
Lemma dirname_child a n :
  a <> "" -> a <> "/" -> isName n = true ->
  dirname (a +:+ String sep n) = a.
Proof.
  intros Ha Hroot Hn.
  apply isName_spec in Hn as (Hne & _ & _ & Hsep).
  destruct a as [|c0 r0]; [congruence|].
  rewrite append_cons. unfold dirname.
  rewrite chars_append. simpl list_ascii_of_string.
  rewrite rev_app_distr. simpl rev. rewrite <- !app_assoc. simpl app.
  assert (Hrev : forallb notSep (rev (list_ascii_of_string n)) = true)
    by (apply forallb_rev, Hsep).
  assert (Hnil : rev (list_ascii_of_string n) <> []).
  { destruct n; [congruence|]. simpl. intros E.
    apply app_eq_nil in E as [_ E]. discriminate. }
  rewrite dropWhile_isSep_keeps, dropWhile_notSep_stops by assumption.
  destruct r0 as [|c1 r1].
  - simpl. destruct (isSep c0) eqn:Hc0; [|reflexivity].
    exfalso. apply Hroot. apply Ascii.eqb_eq in Hc0. subst c0. reflexivity.
  - destruct (rev (list_ascii_of_string (String c1 r1))) eqn:E.
    + simpl in E. apply app_eq_nil in E as [_ E]. discriminate.
    + rewrite <- E, rev_involutive, string_of_list_ascii_of_string.
      reflexivity.
Qed.

End DirnameFacts.

Section WalkFacts.
Import Path.

Lemma pathOf_extends root names :
  exists suffix, pathOf root names = root +:+ suffix.
Proof.
  induction names as [|n up [suffix IH]]; simpl.
  - exists "". symmetry. apply append_empty_r.
  - exists (suffix +:+ String sep n). rewrite IH. apply append_assoc.
Qed.

Lemma pathOf_length root names :
  String.length root + 2 * List.length names
  <= String.length (pathOf root names) + List.length names.
Proof.
  induction names as [|n up IH]; simpl; [lia|].
  rewrite length_append. simpl. lia.
Qed.

Lemma pathOf_child_length root n up :
  String.length root < String.length (pathOf root (n :: up)).
Proof.
  simpl. rewrite length_append. simpl.
  destruct (pathOf_extends root up) as [suffix ->].
  rewrite length_append. lia.
Qed.

Lemma pathOf_proper root names :
  root <> "" -> root <> "/" ->
  pathOf root names <> "" /\ pathOf root names <> "/".
Proof.
  intros H1 H2. destruct names as [|n up]; [tauto|].
  pose proof (pathOf_child_length root n up) as Hlen.
  assert (0 < String.length root) by (destruct root; [congruence | simpl; lia]).
  split; intros E; rewrite E in Hlen; simpl in Hlen; lia.
Qed.

Lemma startsWith_pathOf root names :
  startsWith (pathOf root names) root = true.
Proof.
  destruct (pathOf_extends root names) as [suffix ->]. apply prefix_append.
Qed.

Lemma not_parseRoot p : p <> "" -> p <> "/" -> String.eqb p (parseRoot p) = false.
Proof.
  intros H1 H2. apply String.eqb_neq. unfold parseRoot.
  destruct (isAbsolute p); congruence.
Qed.

Lemma addGitignoreOf_contents d dir acc :
  addGitignoreOf d dir acc = acc ++ gitignoreContents d dir.
Proof.
  unfold addGitignoreOf, gitignoreContents.
  destruct (existsSync d _); [|symmetry; apply app_nil_r].
  destruct (readFileSync d _); [reflexivity | symmetry; apply app_nil_r].
Qed.

(** From a directory below the root the loop visits exactly the
    directories up to the root, and as many rounds as there are of them
    are enough. *)
Lemma walkUp_pathOf d root names :
  root <> "" -> root <> "/" -> Forall (fun n => isName n = true) names ->
  forall fuel acc, List.length names < fuel ->
    walkUp fuel d root (pathOf root names) acc
    = Some (acc ++ mergedRuleset d root names).
Proof.
  intros H1 H2 Hn.
  induction Hn as [|n up Hname Hup IH]; intros fuel acc Hfuel;
    (destruct fuel as [|fuel]; [simpl in Hfuel; lia|]).
  - simpl. unfold startsWith. rewrite <- (append_empty_r root) at 2. rewrite prefix_append, not_parseRoot by assumption.
    simpl. rewrite String.eqb_refl, addGitignoreOf_contents.
    unfold mergedRuleset. simpl. rewrite app_nil_r. reflexivity.
  - destruct (pathOf_proper root (n :: up) H1 H2) as [P1 P2].
    destruct (pathOf_proper root up H1 H2) as [Q1 Q2].
    cbn [walkUp].
    rewrite startsWith_pathOf, not_parseRoot by assumption.
    cbn [andb negb].
    assert (Hneq : String.eqb (pathOf root (n :: up)) root = false).
    { apply String.eqb_neq. intros E.
      pose proof (pathOf_child_length root n up) as Hlen.
      rewrite E in Hlen. lia. }
    rewrite Hneq. cbn [pathOf].
    rewrite dirname_child by assumption.
    rewrite IH by (simpl in Hfuel; lia).
    rewrite addGitignoreOf_contents, <- app_assoc. reflexivity.
Qed.

End WalkFacts.

(** ** The walk always ends *)

Section WalkEnds.
Import Path.

Lemma dropWhile_length f l : List.length (dropWhile f l) <= List.length l.
Proof.
  induction l as [|c l IH]; simpl; [lia|].
  destruct (f c); simpl; lia.
Qed.

Lemma dropWhile_isSep_head l c rest :
  dropWhile isSep l = c :: rest -> notSep c = true.
Proof.
  induction l as [|x l IH]; simpl; [discriminate|].
  destruct (isSep x) eqn:Hx; [exact IH|].
  intros [= <- _]. unfold notSep. rewrite Hx. reflexivity.
Qed.

(** Cutting the last segment removes at least one character besides the
    separator the cut is made at. *)
Lemma cut_length l sepc before :
  dropWhile notSep (dropWhile isSep l) = sepc :: before ->
  List.length before + 2 <= List.length l.
Proof.
  intros Hcut.
  pose proof (dropWhile_length isSep l) as Hlen.
  destruct (dropWhile isSep l) as [|c rest] eqn:Hdrop; [discriminate|].
  apply dropWhile_isSep_head in Hdrop.
  simpl in Hcut. rewrite Hdrop in Hcut.
  pose proof (dropWhile_length notSep rest) as Hlen'.
  rewrite Hcut in Hlen'. simpl in *. lia.
Qed.

Lemma chars_length s : List.length (list_ascii_of_string s) = String.length s.
Proof. induction s as [|c s IH]; simpl; [reflexivity | rewrite IH; reflexivity]. Qed.

Lemma string_of_chars_length l :
  String.length (string_of_list_ascii l) = List.length l.
Proof. induction l as [|c l IH]; simpl; [reflexivity | rewrite IH; reflexivity]. Qed.

(** [dirname] answers ["."] or something shorter, except on the empty
    path and on the root. *)
Lemma dirname_shorter p :
  p <> "" -> p <> "/" ->
  dirname p = "." \/ String.length (dirname p) < String.length p.
Proof.
  intros Hempty Hroot. destruct p as [|c0 r]; [congruence|].
  unfold dirname.
  destruct (dropWhile notSep (dropWhile isSep (rev (list_ascii_of_string r))))
    as [|sepc before] eqn:Hcut.
  - destruct (isSep c0) eqn:Hc0; [|left; reflexivity].
    right. destruct r; [|simpl; lia].
    exfalso. apply Hroot. apply Ascii.eqb_eq in Hc0. subst. reflexivity.
  - right. apply cut_length in Hcut.
    rewrite length_rev, chars_length in Hcut.
    destruct before as [|b before'].
    + destruct (isSep c0); simpl in *; lia.
    + cbn [String.length]. rewrite string_of_chars_length, length_rev.
      simpl in *. lia.
Qed.

Lemma dirname_absolute p :
  isAbsolute p = true -> isAbsolute (dirname p) = true.
Proof.
  destruct p as [|c0 r]; [discriminate|]. simpl. intros Hc0.
  unfold dirname. rewrite Hc0.
  destruct (dropWhile notSep _) as [|sepc [|b before]]; simpl; auto.
Qed.

Lemma prefix_of_dot ws :
  String.prefix ws "." = true -> ws = "" \/ ws = ".".
Proof.
  destruct ws as [|c [|c' ws']]; simpl; auto.
  - destruct (ascii_dec c "."); [subst; auto | discriminate].
  - destruct (ascii_dec c "."); discriminate.
Qed.

Lemma roundsFrom_dirname p :
  p <> "" -> p <> "/" -> p <> "." ->
  roundsFrom (dirname p) < roundsFrom p.
Proof.
  intros H1 H2 H3. unfold roundsFrom.
  apply String.eqb_neq in H3. rewrite H3.
  destruct (String.eqb_spec (dirname p) "."); [lia|].
  destruct (dirname_shorter p H1 H2); [congruence | lia].
Qed.

Lemma walkUp_finishes d ws :
  ws <> "" ->
  forall fuel p acc, roundsFrom p < fuel -> walkUp fuel d ws p acc <> None.
Proof.
  intros Hws. induction fuel as [|fuel IH]; intros p acc Hfuel; [lia|].
  cbn [walkUp].
  destruct (startsWith p ws) eqn:Hstart; [|discriminate].
  destruct (String.eqb_spec p (parseRoot p)) as [|Hnroot]; [discriminate|].
  cbn [andb negb].
  destruct (String.eqb_spec p ws) as [|Hneq]; [discriminate|].
  assert (Hp1 : p <> "").
  { intros ->. unfold startsWith in Hstart.
    destruct ws; [congruence | discriminate]. }
  assert (Hp2 : p <> "/").
  { intros ->. apply Hnroot. reflexivity. }
  assert (Hp3 : p <> ".").
  { intros ->. apply prefix_of_dot in Hstart as [?|?]; congruence. }
  apply IH.
  pose proof (roundsFrom_dirname p Hp1 Hp2 Hp3) as Hlt. lia.
Qed.

Lemma walkFuel_enough p : roundsFrom p < walkFuel p.
Proof.
  unfold roundsFrom, walkFuel. destruct (String.eqb p "."); lia.
Qed.

End WalkEnds.

(** A processor with a non-empty root answers every query: the loop of
    [getGitignoreRulesForPath] cannot run forever. *)
Lemma shouldIgnoreFile_finishes `{Host} d filePath globs g :
  workspacePath g <> "" ->
  fst (shouldIgnoreFile d filePath globs g) <> Unfinished.
Proof.
  intros Hws. unfold shouldIgnoreFile, getGitignoreRulesForPath.
  destruct (gitignoreCache g !! Path.dirname filePath) as [rules|].
  - destruct (ignores rules _) as [[|]|]; [| destruct (isMatch _ _) |]; discriminate.
  - destruct (walkUp _ _ _ _ _) as [rules|] eqn:Hwalk.
    + destruct (ignores rules _) as [[|]|]; [| destruct (isMatch _ _) |]; discriminate.
    + exfalso. revert Hwalk.
      apply walkUp_finishes; [exact Hws | apply walkFuel_enough].
Qed.

Section IgnoreRules.
Context `{Host}.

Lemma getGitignoreRulesForPath_root d dir g rules g' :
  getGitignoreRulesForPath d dir g = Some (rules, g') ->
  workspacePath g' = workspacePath g.
Proof.
  unfold getGitignoreRulesForPath.
  destruct (gitignoreCache g !! dir).
  - intros [= _ <-]. reflexivity.
  - destruct (walkUp _ _ _ _ _); [|discriminate]. intros [= _ <-]. reflexivity.
Qed.

Lemma getGitignoreRulesForPath_coherent d dir g rules g' :
  cacheCoherent d g ->
  getGitignoreRulesForPath d dir g = Some (rules, g') ->
  cacheCoherent d g'
  /\ walkUp (walkFuel dir) d (workspacePath g) dir [] = Some rules.
Proof.
  unfold getGitignoreRulesForPath. intros Hco.
  destruct (gitignoreCache g !! dir) as [cached|] eqn:Hhit.
  - intros [= <- <-]. split; [exact Hco | apply Hco, Hhit].
  - destruct (walkUp _ _ _ _ _) as [walked|] eqn:Hwalk; [|discriminate].
    intros [= <- <-]. split; [|reflexivity].
    intros dir' rules'. cbn [gitignoreCache workspacePath].
    rewrite lookup_insert. destruct (decide (dir = dir')) as [<-|Hne].
    + intros [= <-]. exact Hwalk.
    + apply Hco.
Qed.

Lemma shouldIgnoreFile_coherent d filePath globs g :
  cacheCoherent d g ->
  cacheCoherent d (snd (shouldIgnoreFile d filePath globs g)).
Proof.
  intros Hco. unfold shouldIgnoreFile.
  destruct (getGitignoreRulesForPath d (Path.dirname filePath) g)
    as [[rules g']|] eqn:Hget; [|exact Hco].
  destruct (getGitignoreRulesForPath_coherent _ _ _ _ _ Hco Hget) as [Hco' _].
  destruct (ignores rules _) as [[|]|]; [| destruct (isMatch _ _) |]; exact Hco'.
Qed.

(** A cache filled on one disk only holds what the walk yields there. *)
Lemma SinceClear_coherent d g : SinceClear d g -> cacheCoherent d g.
Proof.
  induction 1 as [root | g | g filePath globs _ IH].
  - intros dir rules. cbn. rewrite lookup_empty. discriminate.
  - intros dir rules. cbn. rewrite lookup_empty. discriminate.
  - apply shouldIgnoreFile_coherent, IH.
Qed.

(** C7, as amended: for a processor whose root is neither the empty
    string nor the file-system root, a cache filled since it was last
    cleared on the present disk, and a path whose containing directory is
    the root or lies below it, [shouldIgnoreFile] answers true when the
    rules merged from the [.gitignore] files of the directories from the
    containing directory up to the root match the path relative to that
    directory, otherwise what the glob matcher answers for the exclusion
    globs, and it throws when the matcher it has come to throws. *)
Theorem shouldIgnoreFile_merged_rules_then_globs
    (d : Disk) (g : GitIgnoreProcessor) (filePath : string)
    (exclusionGlobs names : list string) :
  workspacePath g <> "" -> workspacePath g <> "/" ->
  SinceClear d g ->
  Forall (fun n => isName n = true) names ->
  Path.dirname filePath = pathOf (workspacePath g) names ->
  fst (shouldIgnoreFile d filePath exclusionGlobs g)
  = match ignores (mergedRuleset d (workspacePath g) names)
            (Path.relative processCwd (Path.dirname filePath) filePath) with
    | Some true => Normal true
    | Some false =>
        match isMatch filePath exclusionGlobs with
        | Some globbed => Normal globbed
        | None => Thrown
        end
    | None => Thrown
    end.
Proof.
  intros Hroot1 Hroot2 Hsince Hnames Hdir.
  pose proof (SinceClear_coherent d g Hsince) as Hco.
  assert (Hwalk : walkUp (walkFuel (Path.dirname filePath)) d (workspacePath g)
                    (Path.dirname filePath) []
                  = Some (mergedRuleset d (workspacePath g) names)).
  { rewrite Hdir.
    rewrite (walkUp_pathOf d (workspacePath g) names Hroot1 Hroot2 Hnames).
    - reflexivity.
    - unfold walkFuel.
      pose proof (pathOf_length (workspacePath g) names). lia. }
  unfold shouldIgnoreFile.
  destruct (getGitignoreRulesForPath d (Path.dirname filePath) g)
    as [[rules g']|] eqn:Hget.
  - destruct (getGitignoreRulesForPath_coherent _ _ _ _ _ Hco Hget) as [_ Hw].
    rewrite Hwalk in Hw. injection Hw as <-.
    destruct (ignores _ _) as [[|]|]; [reflexivity | | reflexivity].
    destruct (isMatch filePath exclusionGlobs); reflexivity.
  - exfalso. unfold getGitignoreRulesForPath in Hget.
    destruct (gitignoreCache g !! Path.dirname filePath); [discriminate|].
    rewrite Hwalk in Hget. discriminate.
Qed.

End IgnoreRules.

Lemma shouldIgnoreFile_merged_rules_then_globs_witness :
  fst (@shouldIgnoreFile demoHost demoDisk "/proj/sub/deep/tmp" []
         (newGitIgnoreProcessor "/proj"))
  = Normal true
  /\ fst (@shouldIgnoreFile demoHost demoDisk "/proj/sub/deep/notes" ["/proj/sub/deep/notes"]
         (newGitIgnoreProcessor "/proj"))
  = Normal true
  /\ fst (@shouldIgnoreFile demoHost demoDisk "/proj/sub/deep/notes" []
         (newGitIgnoreProcessor "/proj"))
  = Normal false
  /\ fst (@shouldIgnoreFile demoHost demoDisk "/proj/sub/deep/notes" [""]
         (newGitIgnoreProcessor "/proj"))
  = Thrown.
Proof.
  split; [|split; [|split]].
  - apply (@shouldIgnoreFile_merged_rules_then_globs demoHost demoDisk
             (newGitIgnoreProcessor "/proj") "/proj/sub/deep/tmp" []
             ["deep"; "sub"]);
      try reflexivity; try discriminate;
      [apply since_new | repeat constructor].
  - apply (@shouldIgnoreFile_merged_rules_then_globs demoHost demoDisk
             (newGitIgnoreProcessor "/proj") "/proj/sub/deep/notes"
             ["/proj/sub/deep/notes"] ["deep"; "sub"]);
      try reflexivity; try discriminate;
      [apply since_new | repeat constructor].
  - apply (@shouldIgnoreFile_merged_rules_then_globs demoHost demoDisk
             (newGitIgnoreProcessor "/proj") "/proj/sub/deep/notes"
             [] ["deep"; "sub"]);
      try reflexivity; try discriminate;
      [apply since_new | repeat constructor].
  - apply (@shouldIgnoreFile_merged_rules_then_globs demoHost demoDisk
             (newGitIgnoreProcessor "/proj") "/proj/sub/deep/notes"
             [""] ["deep"; "sub"]);
      try reflexivity; try discriminate;
      [apply since_new | repeat constructor].
Defined.

(** C7 as stated fails in several places.  With the file-system root as
    project root the [.gitignore] of the root matches [a.txt], yet the
    loop never reads it and the answer is false; the same with a root
    written [/proj/], of which [/proj] is no extension, and with the
    empty string as root, where the walk from [/a] ends at the
    file-system root; a processor that answered in [/proj] before
    [/proj/.gitignore] was rewritten answers from the old rules; and an
    empty-string glob makes the call throw. *)
Lemma shouldIgnoreFile_departs_from_merged_rules :
  (Path.dirname "/a.txt" = pathOf "/" []
   /\ @ignores demoHost (mergedRuleset rootDisk "/" [])
        (Path.relative (@processCwd demoHost) (Path.dirname "/a.txt") "/a.txt")
      = Some true
   /\ fst (@shouldIgnoreFile demoHost rootDisk "/a.txt" []
             (newGitIgnoreProcessor "/"))
      = Normal false)
  /\ (@ignores demoHost (gitignoreContents demoDisk "/proj/")
        (Path.relative (@processCwd demoHost) (Path.dirname "/proj/build")
           "/proj/build")
      = Some true
      /\ fst (@shouldIgnoreFile demoHost demoDisk "/proj/build" []
                (newGitIgnoreProcessor "/proj/"))
         = Normal false)
  /\ (Path.dirname "/a/x" = pathOf "" ["a"]
      /\ @ignores demoHost (mergedRuleset relativeDisk "" ["a"])
           (Path.relative (@processCwd demoHost) (Path.dirname "/a/x") "/a/x")
         = Some true
      /\ fst (@shouldIgnoreFile demoHost relativeDisk "/a/x" []
                (newGitIgnoreProcessor ""))
         = Normal false)
  /\ (let g := snd (@shouldIgnoreFile demoHost demoDisk "/proj/notes" []
                      (newGitIgnoreProcessor "/proj")) in
      Path.dirname "/proj/notes" = pathOf (workspacePath g) []
      /\ @ignores demoHost (mergedRuleset editedDisk (workspacePath g) [])
           (Path.relative (@processCwd demoHost) (Path.dirname "/proj/notes")
              "/proj/notes")
         = Some true
      /\ fst (@shouldIgnoreFile demoHost editedDisk "/proj/notes" [] g)
         = Normal false)
  /\ fst (@shouldIgnoreFile demoHost demoDisk "/proj/a.txt" [""]
            (newGitIgnoreProcessor "/proj"))
     = Thrown.
Proof. repeat split; vm_compute; reflexivity. Qed.

(** The cache is not refreshed by time: after [/proj/.gitignore] is
    rewritten, a processor that already answered in [/proj] keeps the old
    rules until [clearCache] is called. *)
Lemma cache_answers_until_cleared :
  let g := snd (@shouldIgnoreFile demoHost demoDisk "/proj/notes" []
                  (newGitIgnoreProcessor "/proj")) in
  fst (@shouldIgnoreFile demoHost editedDisk "/proj/notes" [] g) = Normal false
  /\ fst (@shouldIgnoreFile demoHost editedDisk "/proj/notes" [] (clearCache g))
     = Normal true.
Proof. split; vm_compute; reflexivity. Qed.

(** * The set of tracked paths *)

Section PathSet.
Context `{Host}.

Lemma setHas_In x s : setHas x s = true <-> In x s.
Proof.
  unfold setHas. rewrite existsb_exists. split.
  - intros (y & Hy & E). apply String.eqb_eq in E. subst. exact Hy.
  - intros Hx. exists x. split; [exact Hx | apply String.eqb_refl].
Qed.

Lemma setDelete_absent x s :
  setHas x s = false -> snd (setDelete x s) = s.
Proof.
  unfold setDelete, setHas. simpl. induction s as [|y s IH]; [reflexivity|].
  simpl. intros Hx. apply orb_false_iff in Hx as [Hy Hs].
  rewrite Hy. simpl. rewrite IH by exact Hs. reflexivity.
Qed.

Lemma setDelete_removes x s y :
  In y (snd (setDelete x s)) <-> In y s /\ y <> x.
Proof.
  unfold setDelete. simpl. rewrite filter_In, negb_true_iff, String.eqb_neq.
  split; intros [Hy Hxy]; split; auto.
Qed.

Lemma setAdd_In x s y : In y (setAdd x s) <-> y = x \/ In y s.
Proof.
  unfold setAdd. destruct (setHas x s) eqn:Hx.
  - apply setHas_In in Hx. split; [auto|]. intros [->|Hy]; assumption.
  - rewrite in_app_iff. simpl. split.
    + intros [Hy|[<-|[]]]; auto.
    + intros [->|Hy]; auto.
Qed.

(** C5: [removeFilePath] deletes the normalized entry; when that entry
    was not there it raises the re-scan flag and deletes the entry with
    the directory suffix instead; it answers true exactly when one of the
    two deletions removed an entry. *)
Theorem removeFilePath_tries_plain_then_directory (filePath : string) (t : Tracker) :
  let normalizedPath := normalizeFilePath filePath in
  let removed := fst (removeFilePath filePath t) in
  let t' := snd (removeFilePath filePath t) in
  (setHas normalizedPath (filePaths t) = true ->
     filePaths t' = snd (setDelete normalizedPath (filePaths t)))
  /\ (setHas normalizedPath (filePaths t) = false ->
     needReInit t' = true
     /\ filePaths t' = snd (setDelete (normalizedPath +:+ "/") (filePaths t)))
  /\ (removed = true <->
      setHas normalizedPath (filePaths t) = true
      \/ setHas (normalizedPath +:+ "/") (filePaths t) = true).
Proof.
  cbv zeta.
  pose proof (setDelete_absent (normalizeFilePath filePath) (filePaths t)) as Hsame.
  unfold removeFilePath, setDelete in *. cbn [snd] in Hsame.
  destruct (setHas (normalizeFilePath filePath) (filePaths t)) eqn:Hfile;
    cbn [negb]; destruct (String.eqb _ ".gitignore");
    cbn [fst snd filePaths setFilePaths setNeedReInit setGitIgnoreProcessor
         needReInit].
  1, 2: split; [reflexivity|]; split; [discriminate|];
        split; [left; reflexivity | reflexivity].
  all: rewrite Hsame by reflexivity.
  all: split; [discriminate|]; split; [split; reflexivity|].
  all: split; [intros E; right; exact E | intros [E|E]; [discriminate | exact E]].
Qed.

End PathSet.

Lemma removeFilePath_tries_plain_then_directory_witness :
  (filePaths (snd (@removeFilePath demoHost "a.txt" trackedDemo)) = ["/proj/sub/"])
  /\ (needReInit (snd (@removeFilePath demoHost "sub" trackedDemo)) = true
      /\ filePaths (snd (@removeFilePath demoHost "sub" trackedDemo)) = ["/proj/a.txt"])
  /\ fst (@removeFilePath demoHost "sub" trackedDemo) = true.
Proof.
  split; [|split].
  - apply (proj1 (@removeFilePath_tries_plain_then_directory demoHost "a.txt" trackedDemo)).
    reflexivity.
  - apply (proj1 (proj2 (@removeFilePath_tries_plain_then_directory demoHost "sub" trackedDemo))).
    reflexivity.
  - apply (proj2 (proj2 (@removeFilePath_tries_plain_then_directory demoHost "sub" trackedDemo))).
    right. reflexivity.
Defined.

(** * Flood detection *)

Lemma incrementEventAndDetectFlood_count t :
  eventCount (incrementEventAndDetectFlood t) = S (eventCount t).
Proof.
  unfold incrementEventAndDetectFlood.
  destruct (Nat.ltb EVENT_FLOOD_SZ (eventCount t)); reflexivity.
Qed.

Lemma incrementEventAndDetectFlood_flag t :
  needReInit (incrementEventAndDetectFlood t)
  = (Nat.ltb EVENT_FLOOD_SZ (eventCount t) || needReInit t).
Proof.
  unfold incrementEventAndDetectFlood.
  destruct (Nat.ltb EVENT_FLOOD_SZ (eventCount t)); reflexivity.
Qed.

(** C2, what the code does: the test reads the counter before it is
    incremented, so in a window that starts with the counter at zero and
    the flag down, the flag is up after [n] raw events exactly when
    [n >= 102]; 101 events leave it down. *)
Theorem flood_flag_needs_102_events (t : Tracker) (n : nat) :
  eventCount t = 0 -> needReInit t = false ->
  eventCount (Nat.iter n incrementEventAndDetectFlood t) = n
  /\ needReInit (Nat.iter n incrementEventAndDetectFlood t)
     = Nat.ltb (S EVENT_FLOOD_SZ) n.
Proof.
  intros Hcount Hflag. induction n as [|n [IHc IHf]].
  - split; assumption.
  - rewrite !Nat.iter_succ.
    rewrite incrementEventAndDetectFlood_count,
            incrementEventAndDetectFlood_flag, IHc, IHf.
    split; [reflexivity|].
    unfold EVENT_FLOOD_SZ.
    destruct (Nat.ltb_spec 100 n), (Nat.ltb_spec 101 n), (Nat.ltb_spec 101 (S n));
      simpl; try reflexivity; lia.
Qed.

Lemma flood_flag_needs_102_events_witness :
  eventCount (Nat.iter 101 incrementEventAndDetectFlood demoTracker) = 101
  /\ needReInit (Nat.iter 101 incrementEventAndDetectFlood demoTracker)
     = false.
Proof.
  apply (flood_flag_needs_102_events demoTracker 101); reflexivity.
Defined.

(** The counter moves before the ignore rules are consulted, so a raw
    event counts whatever the rules say. *)
Lemma raw_event_counts `{Host} (fsPath : string) (t : Tracker)
    (d : list (Awaiting unit)) :
  eventCount (fst (fst (exec (onDidCreate fsPath) t d))) = S (eventCount t)
  /\ eventCount (fst (fst (exec (onDidDelete fsPath) t d))) = S (eventCount t)
  /\ eventCount (fst (fst (exec (onDidChange fsPath) t d))) = S (eventCount t).
Proof.
  assert (Hglob : forall t0 res t1,
            shouldIgnoreGlob fsPath getDirsToIgnore t0 = (res, t1) ->
            eventCount t1 = eventCount t0
            /\ eventCount (snd (removeFilePath fsPath t1)) = eventCount t0).
  { intros t0 res t1. unfold shouldIgnoreGlob.
    destruct (shouldIgnoreFile _ _ _ _) as [r g].
    destruct r as [[|]| |]; [| destruct (isMatch _ _) | |];
      intros [= _ <-]; split; try reflexivity.
    all: unfold removeFilePath, setDelete;
      destruct (setHas _ _); destruct (String.eqb _ ".gitignore"); reflexivity. }
  unfold onDidCreate, onDidDelete, onDidChange, modify, call, callTotal.
  cbn [bind exec].
  destruct (shouldIgnoreGlob fsPath getDirsToIgnore
              (incrementEventAndDetectFlood t)) as [res t1] eqn:E.
  destruct (Hglob _ _ _ E) as [H1 H2].
  rewrite incrementEventAndDetectFlood_count in H1, H2.
  destruct res as [[|]| |]; cbn [bind exec fst]; auto.
  destruct (removeFilePath fsPath t1) as [[|] t2] eqn:Hrm; cbn [bind exec fst];
    cbn [snd] in H2; repeat split; auto.
  unfold triggerWorkspaceDidUpdate.
  destruct (workspaceDidUpdateTimeout t2); exact H2.
Qed.

(** When the timer fires with the flag up the re-scan is queued and
    nothing is posted; with the flag down the snapshot is posted and
    nothing is queued.  Either way the counter restarts from zero. *)
Lemma timerCallback_branches `{Host} (r : Runtime) :
  eventCount (tracker (timerCallback r)) = 0
  /\ (needReInit (tracker r) = true ->
      notifyQueue (timerCallback r) = notifyQueue r ++ [reinitTask]
      /\ posted (tracker (timerCallback r)) = posted (tracker r))
  /\ (needReInit (tracker r) = false ->
      notifyQueue (timerCallback r) = notifyQueue r
      /\ posted (tracker (timerCallback r))
         = posted (workspaceDidUpdate (tracker r))).
Proof.
  unfold timerCallback.
  destruct (needReInit (tracker r)); repeat split; discriminate || reflexivity.
Qed.

(** The same through the event loop: 101 raw events, each filtered out
    by the ignore rules and so never starting the timer, leave the flag
    down; the next one raises it. *)
Lemma flood_101_raw_events :
  option_map (fun r => (eventCount (tracker r), needReInit (tracker r),
                        liveTimers (tracker r)))
    (@steps demoHost (@newRuntime demoHost demoDisk) (ignoredEvents 101))
  = Some (101, false, [])
  /\ option_map (fun r => (eventCount (tracker r), needReInit (tracker r)))
       (@steps demoHost (@newRuntime demoHost demoDisk) (ignoredEvents 102))
     = Some (102, true).
Proof. split; vm_compute; reflexivity. Qed.

(** * Adding a path *)

Section AddPath.
Context `{Host}.

Lemma normalizeFilePath_without_sep p :
  Path.isAbsolute processCwd = true ->
  Path.endsWithSep p = false -> resolved p <> "/" ->
  Path.endsWithSep (normalizeFilePath p) = false.
Proof.
  intros Hpc Hend Hroot.
  destruct (resolved_names p Hpc) as (names & Hn & Hres).
  rewrite normalizeFilePath_unfold, Hend, Hres.
  apply endsWithSep_root_names; [assumption|].
  eapply resolved_not_root_names; eassumption.
Qed.

Lemma exec_addFilePath filePath t d :
  exec (addFilePath filePath) t d
  = (t, d,
     Suspended
       (AwaitingStat (normalizeFilePath filePath)
          (fun stat =>
             callTotal (addFilePathSettled (normalizeFilePath filePath) stat)))).
Proof. reflexivity. Qed.

Lemma exec_callTotal {A} (f : Tracker -> A * Tracker) t d :
  exec (callTotal f) t d = (snd (f t), d, Fulfilled (fst (f t))).
Proof. unfold callTotal. cbn [exec]. destruct (f t). reflexivity. Qed.

(** C8, as amended: when the [stat] rejects, [addFilePath] still
    fulfils; the entry it adds is the normalized path itself, nothing
    appended, and nothing else of the tracker changes.  That entry is
    free of the trailing separator when the raw path has none and does
    not resolve to the root; it ends in the separator when the raw path
    does or resolves to the root. *)
Theorem addFilePath_stat_failure_adds_plain (filePath : string)
    (t : Tracker) (d : list (Awaiting unit)) :
  exists k,
    exec (addFilePath filePath) t d
    = (t, d, Suspended (AwaitingStat (normalizeFilePath filePath) k))
    /\ (forall t' d',
          exec (k None) t' d'
          = (setFilePaths (setAdd (normalizeFilePath filePath) (filePaths t')) t',
             d', Fulfilled (normalizeFilePath filePath)))
    /\ (Path.isAbsolute processCwd = true ->
        Path.endsWithSep filePath = false -> resolved filePath <> "/" ->
        Path.endsWithSep (normalizeFilePath filePath) = false)
    /\ (Path.endsWithSep filePath = true ->
        Path.endsWithSep (normalizeFilePath filePath) = true)
    /\ (resolved filePath = "/" ->
        Path.endsWithSep (normalizeFilePath filePath) = true).
Proof.
  eexists. split; [apply exec_addFilePath|].
  split; [|split; [apply normalizeFilePath_without_sep|split]].
  - intros t' d'. rewrite exec_callTotal. reflexivity.
  - intros Hend. rewrite normalizeFilePath_unfold, Hend.
    apply endsWithSep_append_sep.
  - intros Hroot. rewrite normalizeFilePath_unfold, Hroot.
    destruct (Path.endsWithSep filePath); reflexivity.
Qed.

(** With a [stat] that fulfils, a [.gitignore] clears the cache and
    raises the flag. *)
Lemma addFilePathSettled_gitignore normalizedPath isDirectory t :
  Path.basename normalizedPath = ".gitignore" ->
  let t' := snd (addFilePathSettled normalizedPath (Some isDirectory) t) in
  gitignoreCache (gitIgnoreProcessor t') = ∅ /\ needReInit t' = true.
Proof.
  intros Hbase. unfold addFilePathSettled. rewrite Hbase.
  destruct isDirectory; split; reflexivity.
Qed.

(** So does its removal, tracked or not. *)
Lemma removeFilePath_gitignore filePath t :
  Path.basename (normalizeFilePath filePath) = ".gitignore" ->
  let t' := snd (removeFilePath filePath t) in
  gitignoreCache (gitIgnoreProcessor t') = ∅ /\ needReInit t' = true.
Proof.
  intros Hbase. unfold removeFilePath. rewrite Hbase. unfold setDelete.
  destruct (setHas (normalizeFilePath filePath) (filePaths t));
    split; reflexivity.
Qed.

(** C3, where the code departs from it: when the [stat] of a created
    [.gitignore] rejects, the [catch] branch adds the path and returns;
    the cache is not cleared and the flag is left as it was. *)
Theorem addFilePath_gitignore_stat_failure_keeps_cache (filePath : string)
    (t : Tracker) (d : list (Awaiting unit)) :
  Path.basename (normalizeFilePath filePath) = ".gitignore" ->
  exists k,
    exec (addFilePath filePath) t d
    = (t, d, Suspended (AwaitingStat (normalizeFilePath filePath) k))
    /\ forall t' d',
         gitIgnoreProcessor (fst (fst (exec (k None) t' d')))
         = gitIgnoreProcessor t'
         /\ needReInit (fst (fst (exec (k None) t' d'))) = needReInit t'.
Proof.
  intros _. eexists. split; [apply exec_addFilePath|].
  intros t' d'. cbv beta. rewrite exec_callTotal. split; reflexivity.
Qed.

End AddPath.

Lemma addFilePath_stat_failure_adds_plain_witness :
  exists k,
    exec (@addFilePath demoHost "/proj/new.txt") demoTracker []
    = (demoTracker, [], Suspended (AwaitingStat "/proj/new.txt" k))
    /\ filePaths (fst (fst (exec (k None) demoTracker []))) = ["/proj/new.txt"]
    /\ Path.endsWithSep (@normalizeFilePath demoHost "/proj/new.txt") = false.
Proof.
  destruct (@addFilePath_stat_failure_adds_plain demoHost "/proj/new.txt"
              demoTracker []) as (k & Hstart & Hfail & Hplain & _ & _).
  exists k. split; [exact Hstart|]. split.
  - rewrite Hfail. reflexivity.
  - apply Hplain; [reflexivity | reflexivity | vm_compute; discriminate].
Defined.

(** C8 as stated fails for a raw path that ends in the separator or
    resolves to the root: the [stat] of [/proj/sub/] rejects and the
    entry added is [/proj/sub/], with the separator that marks a
    directory; and [..], which resolves to the root from [/proj], is
    added as [/]. *)
Lemma addFilePath_stat_failure_keeps_separator :
  (exists k,
     exec (@addFilePath demoHost "/proj/sub/") demoTracker []
     = (demoTracker, [], Suspended (AwaitingStat "/proj/sub/" k))
     /\ exec (k None) demoTracker []
        = (setFilePaths ["/proj/sub/"] demoTracker, [], Fulfilled "/proj/sub/")
     /\ Path.endsWithSep "/proj/sub/" = true)
  /\ (exists k,
        exec (@addFilePath demoHost "..") demoTracker []
        = (demoTracker, [], Suspended (AwaitingStat "/" k))
        /\ exec (k None) demoTracker []
           = (setFilePaths ["/"] demoTracker, [], Fulfilled "/")
        /\ Path.endsWithSep "/" = true).
Proof.
  split; eexists; (split; [reflexivity|]); split; reflexivity.
Qed.

Lemma addFilePath_gitignore_stat_failure_keeps_cache_witness :
  exists k,
    exec (@addFilePath demoHost "/proj/.gitignore") warmTracker []
    = (warmTracker, [], Suspended (AwaitingStat "/proj/.gitignore" k))
    /\ gitignoreCache (gitIgnoreProcessor (fst (fst (exec (k None) warmTracker []))))
         !! "/proj" = Some ["build"]
    /\ needReInit (fst (fst (exec (k None) warmTracker []))) = false.
Proof.
  destruct (@addFilePath_gitignore_stat_failure_keeps_cache demoHost
              "/proj/.gitignore" warmTracker [] eq_refl) as (k & Hstart & Hkeep).
  exists k. split; [exact Hstart|].
  destruct (Hkeep warmTracker []) as [Hcache Hflag].
  rewrite Hcache, Hflag. split; reflexivity.
Defined.

(** * The full re-scan *)

Section Rescan.
Context `{Host}.

Lemma exec_modify f t d : exec (modify f) t d = (f t, d, Fulfilled tt).
Proof. reflexivity. Qed.

Lemma workspaceDidUpdate_posts root t :
  cwdRoot = Some root -> providerAlive t = true ->
  posted (workspaceDidUpdate t)
  = posted t
    ++ [map (fun file =>
               let relativePath := toPosix (Path.relative processCwd root file) in
               if Path.endsWithSep file then relativePath +:+ "/"
               else relativePath)
            (firstn 1000 (filePaths t))].
Proof.
  intros Hroot Halive. unfold workspaceDidUpdate. rewrite Hroot, Halive.
  reflexivity.
Qed.

Lemma workspaceDidUpdate_keeps t :
  filePaths (workspaceDidUpdate t) = filePaths t
  /\ needReInit (workspaceDidUpdate t) = needReInit t.
Proof.
  unfold workspaceDidUpdate. destruct cwdRoot; [|split; reflexivity].
  destruct (providerAlive t); split; reflexivity.
Qed.

(** C4: with a project root, [initializeFilePaths] empties the set and
    asks for a recursive listing of the root capped at 1000 entries; when
    the listing arrives the set becomes the normalized listing, the flag
    is lowered and [workspaceDidUpdate] runs at once.  Without a root it
    returns with the tracker and the webview untouched. *)
Theorem initializeFilePaths_rescans_or_returns (t : Tracker)
    (d : list (Awaiting unit)) :
  (forall root, cwdRoot = Some root ->
     exists k,
       exec initializeFilePaths t d
       = (setFilePaths [] t, d, Suspended (AwaitingList root true 1000 k))
       /\ forall files t' d',
            let paths :=
              fold_left (fun acc file => setAdd (normalizeFilePath file) acc)
                        files [] in
            exec (k (Some files)) t' d'
            = (workspaceDidUpdate (setNeedReInit false (setFilePaths paths t')),
               d', Fulfilled tt)
            /\ filePaths (fst (fst (exec (k (Some files)) t' d'))) = paths
            /\ needReInit (fst (fst (exec (k (Some files)) t' d'))) = false
            /\ (providerAlive t' = true ->
                posted (fst (fst (exec (k (Some files)) t' d')))
                = posted t'
                  ++ [map (fun file =>
                             let relativePath :=
                               toPosix (Path.relative processCwd root file) in
                             if Path.endsWithSep file then relativePath +:+ "/"
                             else relativePath)
                          (firstn 1000 paths)]))
  /\ (cwdRoot = None -> exec initializeFilePaths t d = (t, d, Fulfilled tt)).
Proof.
  split.
  - intros root Hroot. unfold initializeFilePaths. rewrite Hroot.
    eexists. split; [reflexivity|].
    intros files t' d'. cbv beta iota zeta.
    rewrite exec_modify. cbn [fst]. unfold initializeFilePathsSettled.
    split; [reflexivity|].
    split; [apply workspaceDidUpdate_keeps|].
    split; [apply workspaceDidUpdate_keeps|].
    intros Halive.
    rewrite (workspaceDidUpdate_posts root); [reflexivity | assumption | exact Halive].
  - intros Hnone. unfold initializeFilePaths. rewrite Hnone. reflexivity.
Qed.

End Rescan.

Lemma initializeFilePaths_rescans_or_returns_witness :
  (exists k,
     exec (@initializeFilePaths demoHost) trackedDemo []
     = (setFilePaths [] trackedDemo, [],
        Suspended (AwaitingList "/proj" true 1000 k))
     /\ option_map
          (fun t => (filePaths t, needReInit t, posted t))
          (Some (fst (fst (exec (k (Some ["/proj/a.txt"; "/proj/sub/"; "/proj/a.txt"]))
                            (setNeedReInit true trackedDemo) []))))
        = Some (["/proj/a.txt"; "/proj/sub/"], false, [["a.txt"; "sub/"]]))
  /\ exec (@initializeFilePaths desktopHost) trackedDemo []
     = (trackedDemo, [], Fulfilled tt).
Proof.
  split.
  - destruct (proj1 (@initializeFilePaths_rescans_or_returns demoHost
                       trackedDemo []) "/proj" eq_refl) as (k & Hstart & Hlist).
    exists k. split; [exact Hstart|].
    destruct (Hlist ["/proj/a.txt"; "/proj/sub/"; "/proj/a.txt"]
                (setNeedReInit true trackedDemo) []) as (-> & _).
    reflexivity.
  - apply (proj2 (@initializeFilePaths_rescans_or_returns desktopHost
                    trackedDemo [])).
    reflexivity.
Defined.

(** * Deleting a path that is not tracked *)

Section UntrackedDelete.
Context `{Host}.

Lemma shouldIgnoreGlob_frame p globs t res t' :
  shouldIgnoreGlob p globs t = (res, t') ->
  t' = setGitIgnoreProcessor (gitIgnoreProcessor t') t.
Proof.
  unfold shouldIgnoreGlob.
  destruct (shouldIgnoreFile (disk t) p [] (gitIgnoreProcessor t)) as [r g].
  destruct r as [[|]| |]; [| destruct (isMatch _ _) | |];
    intros [= _ <-]; reflexivity.
Qed.




End UntrackedDelete.



(** * The promise chain *)

Section Chain.
Context `{Host}.

Lemma linkReaches_chain rest res :
  chainSettled (linkReaches rest res) = SettledFulfilled.
Proof. destruct res as [[t d] [a| |w|]]; reflexivity. Qed.

(** The promise held in [notifyQueue] never rejects. *)
Lemma step_chain_fulfilled r i r' :
  step r i = Some r' ->
  chainSettled r = SettledFulfilled -> chainSettled r' = SettledFulfilled.
Proof.
  unfold step. destruct (hung r); [discriminate|].
  destruct i as [p|p|p|task| |id| |who res|d|].
  1-3: destruct watching; [|discriminate]; intros [= <-]; auto.
  - intros [= <-]; auto.
  - destruct (exec initializeFilePaths (tracker r) (detached r)) as [[t d] o].
    intros [= <-]; auto.
  - destruct (existsb _ _); [|discriminate]. intros [= <-].
    unfold timerCallback. destruct (needReInit _); auto.
  - destruct (running r); [discriminate|].
    destruct (notifyQueue r) as [|task rest]; [discriminate|].
    destruct (chainSettled r); intros [= <-] _;
      [apply linkReaches_chain | reflexivity].
  - destruct who as [i|].
    + destruct (nth_error (detached r) i) as [w|]; [|discriminate].
      destruct (resume w res) as [m|]; [|discriminate].
      intros [= <-]. unfold detachedReaches.
      destruct (exec m (tracker r) (detached r)) as [[t d] o]. auto.
    + destruct (running r) as [w|]; [|discriminate].
      destruct (resume w res) as [m|]; [|discriminate].
      intros [= <-] _. apply linkReaches_chain.
  - intros [= <-]; auto.
  - intros [= <-]; auto.
Qed.

Lemma steps_chain_fulfilled inputs : forall r r',
  steps r inputs = Some r' ->
  chainSettled r = SettledFulfilled -> chainSettled r' = SettledFulfilled.
Proof.
  induction inputs as [|i inputs IH]; intros r r'; simpl.
  - intros [= <-]. auto.
  - destruct (step r i) as [r1|] eqn:Hstep; [|discriminate].
    intros Hrest Hchain. eapply IH; [exact Hrest|].
    eapply step_chain_fulfilled; eassumption.
Qed.

(** A link starts only when none is under way. *)
Lemma job_waits_for_running r r' :
  step r Job = Some r' -> running r = None.
Proof.
  unfold step. destruct (hung r); [discriminate|].
  destruct (running r); [discriminate | reflexivity].
Qed.

(** C6: a queued task that rejects, at once or after an [await], is
    taken off the queue with the promise chain fulfilled and the event
    loop alive; the tasks queued behind it are untouched and the next
    one starts at the following job; and the chain promise is fulfilled
    in every runtime reached from a new tracker. *)
Theorem rejected_task_is_swallowed :
  (forall (r : Runtime) (task : Async unit) (rest : list (Async unit))
          (t' : Tracker) (d' : list (Awaiting unit)),
     hung r = false -> running r = None ->
     chainSettled r = SettledFulfilled ->
     notifyQueue r = task :: rest ->
     exec task (tracker r) (detached r) = (t', d', Rejected) ->
     exists r',
       step r Job = Some r'
       /\ tracker r' = t' /\ detached r' = d'
       /\ notifyQueue r' = rest /\ running r' = None
       /\ chainSettled r' = SettledFulfilled /\ hung r' = false
       /\ forall next rest', rest = next :: rest' ->
            step r' Job = Some (linkReaches rest' (exec next t' d')))
  /\ (forall (r : Runtime) (w : Awaiting unit) (res : Response)
             (m : Async unit) (t' : Tracker) (d' : list (Awaiting unit)),
     hung r = false -> running r = Some w -> resume w res = Some m ->
     exec m (tracker r) (detached r) = (t', d', Rejected) ->
     exists r',
       step r (Settles None res) = Some r'
       /\ tracker r' = t' /\ detached r' = d'
       /\ notifyQueue r' = notifyQueue r /\ running r' = None
       /\ chainSettled r' = SettledFulfilled /\ hung r' = false
       /\ forall next rest', notifyQueue r = next :: rest' ->
            step r' Job = Some (linkReaches rest' (exec next t' d')))
  /\ (forall (d : Disk) (inputs : list Input) (r : Runtime),
     steps (newRuntime d) inputs = Some r ->
     chainSettled r = SettledFulfilled).
Proof.
  split; [|split].
  - intros r task rest t' d' Hhung Hrun Hchain Hqueue Hexec.
    eexists. split.
    + unfold step. rewrite Hhung, Hrun, Hqueue, Hchain, Hexec. reflexivity.
    + cbn. repeat (split; [reflexivity|]).
      intros next rest' ->. reflexivity.
  - intros r w res m t' d' Hhung Hrun Hres Hexec.
    eexists. split.
    + unfold step. rewrite Hhung, Hrun, Hres, Hexec. reflexivity.
    + cbn. repeat (split; [reflexivity|]).
      intros next rest' ->. reflexivity.
  - intros d inputs r Hsteps.
    eapply steps_chain_fulfilled; [exact Hsteps | reflexivity].
Qed.

End Chain.

Lemma rejected_task_is_swallowed_witness :
  (exists r',
     @step demoHost
       (addEventToNotifyQueue markingTask
          (addEventToNotifyQueue failingTask (@newRuntime demoHost demoDisk)))
       Job = Some r'
     /\ notifyQueue r' = [markingTask] /\ running r' = None
     /\ chainSettled r' = SettledFulfilled /\ hung r' = false
     /\ option_map (fun r => needReInit (tracker r)) (@step demoHost r' Job)
        = Some true)
  /\ (forall r0,
        @steps demoHost (@newRuntime demoHost demoDisk)
          [Submit failingAfterStat; Submit markingTask; Job] = Some r0 ->
        exists r1,
          @step demoHost r0 (Settles None (StatResult None)) = Some r1
          /\ notifyQueue r1 = [markingTask] /\ running r1 = None
          /\ chainSettled r1 = SettledFulfilled)
  /\ option_map chainSettled
       (@steps demoHost (@newRuntime demoHost demoDisk)
          [Submit failingTask; Job; Submit failingAfterStat; Job;
           Settles None (StatResult (Some false))])
     = Some SettledFulfilled.
Proof.
  pose proof (@rejected_task_is_swallowed demoHost) as (Hnow & Hlater & Hchain).
  split; [|split].
  - destruct (Hnow
                (addEventToNotifyQueue markingTask
                   (addEventToNotifyQueue failingTask
                      (@newRuntime demoHost demoDisk)))
                failingTask [markingTask] demoTracker []
                eq_refl eq_refl eq_refl eq_refl eq_refl)
      as (r' & Hstep & Htr & Hdet & Hq & Hrun & Hch & Hh & Hnext).
    exists r'. repeat (split; [assumption|]).
    rewrite (Hnext markingTask [] eq_refl). reflexivity.
  - intros r0 Hr0. injection Hr0 as <-.
    match goal with
    | |- context [step ?r (Settles None _)] =>
        destruct (Hlater r (AwaitingStat "/proj/x" (fun _ => Throw))
                    (StatResult None) Throw demoTracker []
                    eq_refl eq_refl eq_refl eq_refl)
          as (r1 & Hstep & _ & _ & Hq & Hrun & Hch & _)
    end.
    exists r1. repeat split; assumption.
  - destruct (@steps demoHost (@newRuntime demoHost demoDisk)
                [Submit failingTask; Job; Submit failingAfterStat; Job;
                 Settles None (StatResult (Some false))]) as [r|] eqn:E.
    + cbn. f_equal. exact (Hchain demoDisk _ r E).
    + vm_compute in E. discriminate.
Defined.

(** * The queued re-scan is not awaited *)

(** The task the timer queues ends as soon as [initializeFilePaths] has
    reached its [await]: the chain moves on while the listing is pending. *)
Lemma reinitTask_ends_before_listing :
  @exec unit (@reinitTask demoHost) trackedDemo []
  = (setFilePaths [] trackedDemo,
     [AwaitingList "/proj" true 1000
        (fun r =>
           match r with
           | Some files => modify (@initializeFilePathsSettled demoHost files)
           | None => Throw
           end)],
     Fulfilled tt).
Proof. reflexivity. Qed.

(** C1, where the code departs from it.  In the demo project a directory
    appears and the timer queues the re-scan.  The creation of [/proj/a]
    is handled while the re-scan awaits its listing: both are under way
    at once.  [/proj/a] is then deleted and leaves the set; the listing,
    taken while it existed, puts it back, so that after create then delete
    the set holds [/proj/a]. *)
Theorem rescan_overlaps_queued_tasks :
  (exists r,
     @steps demoHost (@newRuntime demoHost demoDisk) rescanRace = Some r
     /\ option_map awaited (running r) = Some "stat /proj/a"
     /\ map awaited (detached r) = ["listFiles /proj"])
  /\ (exists r,
     @steps demoHost (@newRuntime demoHost demoDisk)
       (rescanRace ++ firstn 3 rescanRaceEnd) = Some r
     /\ running r = None /\ notifyQueue r = []
     /\ filePaths (tracker r) = [])
  /\ (exists r,
     @steps demoHost (@newRuntime demoHost demoDisk)
       (rescanRace ++ rescanRaceEnd) = Some r
     /\ running r = None /\ notifyQueue r = [] /\ detached r = []
     /\ filePaths (tracker r) = ["/proj/a"; "/proj/d/"]
     /\ needReInit (tracker r) = false
     /\ posted (tracker r) = [["a"; "d/"]]).
Proof.
  split; [|split]; eexists; (split; [vm_compute; reflexivity|]);
    vm_compute; repeat split.
Qed.

(** * Properties kept along the event loop *)

Section Keeping.
Context `{Host}.
Variable P : Tracker -> Prop.

Lemma keeps_bind {A B} (m : Async A) (f : A -> Async B) :
  keeps P m -> (forall a, keeps P (f a)) -> keeps P (bind m f).
Proof.
  intros Hm Hf. induction m as [a| | |k IH|t k IH|p k IH|root rec lim k IH|c IHc k IH];
    cbn [bind keeps] in *; auto.
  - destruct Hm. auto.
  - destruct Hm. auto.
Qed.

Lemma keeps_modify f : (forall t, P t -> P (f t)) -> keeps P (modify f).
Proof. intros Hf. cbn. auto. Qed.

Lemma keeps_call {A} (f : Tracker -> Completion A * Tracker) :
  (forall t, P t -> P (snd (f t))) -> keeps P (call f).
Proof.
  intros Hf t Ht. specialize (Hf t Ht). destruct (f t) as [r t'].
  cbn in *. split; [exact Hf|]. destruct r; exact I.
Qed.

Lemma keeps_callTotal {A} (f : Tracker -> A * Tracker) :
  (forall t, P t -> P (snd (f t))) -> keeps P (callTotal f).
Proof.
  intros Hf t Ht. specialize (Hf t Ht). destruct (f t) as [a t'].
  cbn in *. auto.
Qed.

(** Running a call that keeps [P] from a tracker in [P] ends in [P], and
    whatever is left suspended keeps [P]. *)
Lemma exec_keeps {A} (m : Async A) : forall t d,
  keeps P m -> P t -> Forall (awaitingKeeps P) d ->
  P (fst (fst (exec m t d)))
  /\ Forall (awaitingKeeps P) (snd (fst (exec m t d)))
  /\ forall w, snd (exec m t d) = Suspended w -> awaitingKeeps P w.
Proof.
  induction m as [A a|A|A|A k IH|A t0 k IHk|A p k IH|A root rec lim k IH|A c IHc k IHk];
    intros t d Hm Ht Hd; cbn [exec keeps] in *.
  1-3: repeat split; auto; discriminate.
  - apply IH; auto.
  - destruct Hm. apply IHk; auto.
  - repeat split; auto. intros w [= <-]. exact Hm.
  - repeat split; auto. intros w [= <-]. exact Hm.
  - destruct Hm as [Hc Hk].
    destruct (IHc t d Hc Ht Hd) as (Ht1 & Hd1 & Hw1).
    destruct (exec c t d) as [[t1 d1] o]. cbn [fst snd] in *.
    destruct o as [a| |w|].
    + apply IHk; auto.
    + apply IHk; auto.
    + apply IHk; auto. apply Forall_app. split; [exact Hd1|].
      constructor; [apply Hw1; reflexivity | constructor].
    + repeat split; auto. discriminate.
Qed.

(** What [P] has to withstand: every synchronous method of the tracker
    and every change the surroundings can make. *)
Hypothesis P_increment : forall t, P t -> P (incrementEventAndDetectFlood t).
Hypothesis P_filter : forall p globs t, P t -> P (snd (shouldIgnoreGlob p globs t)).
Hypothesis P_remove : forall p t, P t -> P (snd (removeFilePath p t)).
Hypothesis P_added : forall np stat t, P t -> P (snd (addFilePathSettled np stat t)).
Hypothesis P_trigger : forall t, P t -> P (triggerWorkspaceDidUpdate t).
Hypothesis P_emptied : forall t, P t -> P (setFilePaths [] t).
Hypothesis P_listed : forall files t, P t -> P (initializeFilePathsSettled files t).
Hypothesis P_fired : forall id t, P t -> P (clearTimeout id t).
Hypothesis P_posted : forall t, P t -> P (workspaceDidUpdate t).
Hypothesis P_counted : forall t, P t -> P (setEventCount 0 t).
Hypothesis P_disk : forall d t, P t -> P (setDisk d t).
Hypothesis P_collected : forall t, P t -> P (setProviderAlive false t).

Lemma addFilePath_keeps p : keeps P (addFilePath p).
Proof. intros stat. apply keeps_callTotal. intros t. apply P_added. Qed.

Lemma initializeFilePaths_keeps : keeps P initializeFilePaths.
Proof.
  unfold initializeFilePaths. destruct cwdRoot as [c|]; [|exact I].
  apply keeps_bind; [apply keeps_modify, P_emptied|].
  intros _ [files|]; [|exact I]. apply keeps_modify, P_listed.
Qed.

Lemma handlers_keep p :
  keeps P (onDidCreate p) /\ keeps P (onDidDelete p) /\ keeps P (onDidChange p).
Proof.
  split; [|split].
  - unfold onDidCreate.
    apply keeps_bind; [apply keeps_modify, P_increment|]. intros _.
    apply keeps_bind; [apply keeps_call; intros t; apply P_filter|].
    intros [|]; [exact I|].
    apply keeps_bind; [apply addFilePath_keeps|]. intros _.
    apply keeps_modify, P_trigger.
  - unfold onDidDelete.
    apply keeps_bind; [apply keeps_modify, P_increment|]. intros _.
    apply keeps_bind; [apply keeps_call; intros t; apply P_filter|].
    intros [|]; [exact I|].
    apply keeps_bind; [apply keeps_callTotal; intros t; apply P_remove|].
    intros [|]; [apply keeps_modify, P_trigger | exact I].
  - unfold onDidChange.
    apply keeps_bind; [apply keeps_modify, P_increment|]. intros _.
    apply keeps_bind; [apply keeps_call; intros t; apply P_filter|].
    intros [|]; [exact I|].
    apply keeps_bind; [apply keeps_callTotal; intros t; apply P_remove|].
    intros _.
    apply keeps_bind; [apply addFilePath_keeps|]. intros _.
    apply keeps_modify, P_trigger.
Qed.

Lemma linkReaches_keeps rest m t d :
  keeps P m -> P t -> Forall (awaitingKeeps P) d -> Forall (keeps P) rest ->
  runtimeKeeps P (linkReaches rest (exec m t d)).
Proof.
  intros Hm Ht Hd Hrest.
  destruct (exec_keeps m t d Hm Ht Hd) as (Ht' & Hd' & Hw).
  destruct (exec m t d) as [[t' d'] o]. cbn [fst snd] in *.
  destruct o as [a| |w|]; cbn; repeat split; auto; try discriminate.
  intros w' [= <-]. apply Hw. reflexivity.
Qed.

Lemma awaitingKeeps_resume (w : Awaiting unit) res m :
  awaitingKeeps P w -> resume w res = Some m -> keeps P m.
Proof.
  destruct w as [p k|root rec lim k], res as [s|l]; cbn; intros Hw [= <-];
    apply Hw.
Qed.

Lemma Forall_without {A} (Q : A -> Prop) i l :
  Forall Q l -> Forall Q (firstn i l ++ skipn (S i) l).
Proof.
  intros Hl. apply Forall_app. split;
    [apply Forall_take | apply Forall_drop]; exact Hl.
Qed.

Lemma step_keeps r i r' :
  runtimeKeeps P r -> inputKeeps P i -> step r i = Some r' ->
  runtimeKeeps P r'.
Proof.
  intros (Ht & Hq & Hrun & Hd) Hi. unfold step.
  destruct (hung r); [discriminate|].
  assert (Hadd : forall task, keeps P task ->
            runtimeKeeps P (addEventToNotifyQueue task r)).
  { intros task Htask. repeat split; cbn; auto.
    apply Forall_app. split; [exact Hq | constructor; [exact Htask | constructor]]. }
  destruct i as [p|p|p|task| |id| |who res|d|].
  - destruct watching; [|discriminate]. intros [= <-]. apply Hadd, handlers_keep.
  - destruct watching; [|discriminate]. intros [= <-]. apply Hadd, handlers_keep.
  - destruct watching; [|discriminate]. intros [= <-]. apply Hadd, handlers_keep.
  - intros [= <-]. apply Hadd, Hi.
  - destruct (exec_keeps initializeFilePaths (tracker r) (detached r)
                initializeFilePaths_keeps Ht Hd) as (Ht' & Hd' & Hw).
    destruct (exec initializeFilePaths (tracker r) (detached r)) as [[t d] o].
    cbn [fst snd] in *. intros [= <-]. repeat split; cbn; auto.
    destruct o as [a| |w|]; auto.
    apply Forall_app. split; [exact Hd'|].
    constructor; [apply Hw; reflexivity | constructor].
  - destruct (existsb _ _); [|discriminate]. intros [= <-].
    unfold timerCallback. cbn [tracker setTracker].
    destruct (needReInit (clearTimeout id (tracker r))).
    + repeat split; cbn; auto.
      apply Forall_app. split; [exact Hq|].
      constructor; [|constructor].
      split; [apply initializeFilePaths_keeps | exact I].
    + repeat split; cbn; auto.
  - destruct (running r) as [w|] eqn:Hw; [discriminate|].
    destruct (notifyQueue r) as [|task rest]; [discriminate|].
    inversion Hq as [|? ? Htask Hrest]; subst.
    destruct (chainSettled r); intros [= <-].
    + apply linkReaches_keeps; assumption.
    + repeat split; cbn; auto; discriminate.
  - destruct who as [n|].
    + destruct (nth_error (detached r) n) as [w|] eqn:Hn; [|discriminate].
      destruct (resume w res) as [m|] eqn:Hres; [|discriminate].
      intros [= <-].
      assert (Hw : awaitingKeeps P w).
      { apply (proj1 (List.Forall_forall _ _) Hd). eapply nth_error_In; eauto. }
      pose proof (awaitingKeeps_resume w res m Hw Hres) as Hm.
      destruct (exec_keeps m (tracker r) (detached r) Hm Ht Hd) as (Ht' & Hd' & Hw').
      unfold detachedReaches.
      destruct (exec m (tracker r) (detached r)) as [[t d] o].
      cbn [fst snd] in *. repeat split; cbn; auto.
      destruct o as [a| |w'|]; try (apply Forall_without; exact Hd').
      apply Forall_app. split; [apply Forall_without; exact Hd'|].
      constructor; [apply Hw'; reflexivity | constructor].
    + destruct (running r) as [w|] eqn:Hw; [|discriminate].
      destruct (resume w res) as [m|] eqn:Hres; [|discriminate].
      intros [= <-]. apply linkReaches_keeps; auto.
      eapply awaitingKeeps_resume; [apply Hrun; reflexivity | exact Hres].
  - intros [= <-]. repeat split; cbn; auto.
  - intros [= <-]. repeat split; cbn; auto.
Qed.

Lemma steps_keep inputs : forall r r',
  runtimeKeeps P r -> Forall (inputKeeps P) inputs ->
  steps r inputs = Some r' -> runtimeKeeps P r'.
Proof.
  induction inputs as [|i inputs IH]; intros r r' Hr Hin; cbn [steps].
  - intros [= <-]. exact Hr.
  - inversion Hin; subst.
    destruct (step r i) as [r1|] eqn:Hstep; [|discriminate].
    apply IH; [eapply step_keeps; eauto | assumption].
Qed.

End Keeping.

(** * The debounce timer *)

Section Debounce.
Context `{Host}.

Lemma singleTimer_same t t' : sameTimers t t' -> singleTimer t -> singleTimer t'.
Proof.
  intros (Hh & Hl & Hn) [Hlive Hold]. unfold singleTimer.
  rewrite Hh, Hl, Hn. split; assumption.
Qed.

Lemma increment_sameTimers t : sameTimers t (incrementEventAndDetectFlood t).
Proof.
  unfold incrementEventAndDetectFlood.
  destruct (Nat.ltb _ _); repeat split.
Qed.

Lemma filter_sameTimers p globs t : sameTimers t (snd (shouldIgnoreGlob p globs t)).
Proof.
  destruct (shouldIgnoreGlob p globs t) as [res t'] eqn:E.
  rewrite (shouldIgnoreGlob_frame _ _ _ _ _ E). repeat split.
Qed.

Lemma remove_sameTimers p t : sameTimers t (snd (removeFilePath p t)).
Proof.
  unfold removeFilePath, setDelete.
  destruct (setHas _ (filePaths t)); destruct (String.eqb _ ".gitignore");
    repeat split.
Qed.

Lemma added_sameTimers np stat t : sameTimers t (snd (addFilePathSettled np stat t)).
Proof.
  unfold addFilePathSettled.
  destruct stat as [[|]|]; try destruct (String.eqb _ ".gitignore");
    repeat split.
Qed.

Lemma posted_sameTimers t : sameTimers t (workspaceDidUpdate t).
Proof.
  unfold workspaceDidUpdate. destruct cwdRoot; [|repeat split].
  destruct (providerAlive t); repeat split.
Qed.

Lemma listed_sameTimers files t : sameTimers t (initializeFilePathsSettled files t).
Proof.
  unfold initializeFilePathsSettled.
  destruct (posted_sameTimers
              (setNeedReInit false
                 (setFilePaths
                    (fold_left (fun acc file => setAdd (normalizeFilePath file) acc)
                       files []) t))) as (H1 & H2 & H3).
  repeat split; assumption.
Qed.

Lemma clearTimeout_single id t : singleTimer t -> singleTimer (clearTimeout id t).
Proof.
  intros [Hlive Hold]. split; [|exact Hold].
  cbn [liveTimers clearTimeout workspaceDidUpdateTimeout].
  destruct Hlive as [->|(id0 & Hh & ->)]; [left; reflexivity|].
  cbn. destruct (Nat.eqb id0 id); [left; reflexivity|].
  right. exists id0. split; [exact Hh | reflexivity].
Qed.

Lemma trigger_timers (t : Tracker) :
  singleTimer t ->
  liveTimers (triggerWorkspaceDidUpdate t) = [nextTimerId t]
  /\ workspaceDidUpdateTimeout (triggerWorkspaceDidUpdate t)
     = Some (nextTimerId t)
  /\ (forall old, workspaceDidUpdateTimeout t = Some old ->
        existsb (Nat.eqb old) (liveTimers (triggerWorkspaceDidUpdate t)) = false)
  /\ singleTimer (triggerWorkspaceDidUpdate t).
Proof.
  intros [Hlive Hold].
  assert (Hnew : liveTimers (triggerWorkspaceDidUpdate t) = [nextTimerId t]).
  { unfold triggerWorkspaceDidUpdate.
    destruct (workspaceDidUpdateTimeout t) as [h|] eqn:Hh.
    - cbn. destruct Hlive as [->|(id0 & Hid & ->)]; [reflexivity|].
      injection Hid as <-. cbn. rewrite Nat.eqb_refl. reflexivity.
    - cbn. destruct Hlive as [->|(id0 & Hid & _)]; [reflexivity | discriminate]. }
  assert (Hhandle : workspaceDidUpdateTimeout (triggerWorkspaceDidUpdate t)
                    = Some (nextTimerId t)).
  { unfold triggerWorkspaceDidUpdate.
    destruct (workspaceDidUpdateTimeout t); reflexivity. }
  assert (Hnext : nextTimerId (triggerWorkspaceDidUpdate t) = S (nextTimerId t)).
  { unfold triggerWorkspaceDidUpdate.
    destruct (workspaceDidUpdateTimeout t); reflexivity. }
  split; [exact Hnew|]. split; [exact Hhandle|]. split.
  - intros old Hh. rewrite Hnew. cbn.
    specialize (Hold old Hh).
    destruct (Nat.eqb_spec old (nextTimerId t)); [lia | reflexivity].
  - split.
    + right. exists (nextTimerId t). split; assumption.
    + intros id. rewrite Hhandle, Hnext. intros [= <-]. lia.
Qed.

(** X1: in a tracker with at most one pending timer, the one of its
    handle, [triggerWorkspaceDidUpdate] leaves exactly one pending timer,
    the new one; the timer of the old handle is no longer pending. *)
Theorem triggerWorkspaceDidUpdate_replaces_timer (t : Tracker) :
  singleTimer t ->
  liveTimers (triggerWorkspaceDidUpdate t) = [nextTimerId t]
  /\ workspaceDidUpdateTimeout (triggerWorkspaceDidUpdate t)
     = Some (nextTimerId t)
  /\ (forall old, workspaceDidUpdateTimeout t = Some old ->
        existsb (Nat.eqb old) (liveTimers (triggerWorkspaceDidUpdate t)) = false)
  /\ singleTimer (triggerWorkspaceDidUpdate t).
Proof. apply trigger_timers. Qed.

Lemma newTracker_single d : singleTimer (newTracker d).
Proof. split; [left; reflexivity | discriminate]. Qed.

(** X2: along every run of the event loop from a new tracker, at most
    one debounce timer is pending and it is the one whose handle the
    tracker holds, whatever the watcher, the timers, the awaited calls
    and the disk do, as long as tasks submitted from outside keep it
    so. *)
Theorem event_loop_keeps_single_timer (d : Disk) (inputs : list Input)
    (r : Runtime) :
  Forall (inputKeeps singleTimer) inputs ->
  steps (newRuntime d) inputs = Some r ->
  singleTimer (tracker r).
Proof.
  intros Hin Hsteps.
  assert (Hkeep : runtimeKeeps singleTimer r).
  { apply (steps_keep singleTimer) with (inputs := inputs) (r := newRuntime d);
      try assumption.
    - intros t. apply singleTimer_same, increment_sameTimers.
    - intros p globs t. apply singleTimer_same, filter_sameTimers.
    - intros p t. apply singleTimer_same, remove_sameTimers.
    - intros np stat t. apply singleTimer_same, added_sameTimers.
    - intros t Ht. apply trigger_timers, Ht.
    - intros t. apply singleTimer_same. repeat split.
    - intros files t. apply singleTimer_same, listed_sameTimers.
    - intros id t. apply clearTimeout_single.
    - intros t. apply singleTimer_same, posted_sameTimers.
    - intros t. apply singleTimer_same. repeat split.
    - intros d0 t. apply singleTimer_same. repeat split.
    - intros t. apply singleTimer_same. repeat split.
    - split; [apply newTracker_single|]. repeat split; cbn; auto; discriminate. }
  apply Hkeep.
Qed.

End Debounce.

Lemma triggerWorkspaceDidUpdate_replaces_timer_witness :
  liveTimers (triggerWorkspaceDidUpdate armedTracker) = [1]
  /\ workspaceDidUpdateTimeout (triggerWorkspaceDidUpdate armedTracker) = Some 1
  /\ existsb (Nat.eqb 0) (liveTimers (triggerWorkspaceDidUpdate armedTracker))
     = false.
Proof.
  assert (Hsingle : singleTimer armedTracker).
  { split; [right; exists 0; split; reflexivity|].
    intros id [= <-]. cbn. lia. }
  destruct (triggerWorkspaceDidUpdate_replaces_timer armedTracker Hsingle)
    as (Hlive & Hhandle & Hold & _).
  split; [exact Hlive|]. split; [exact Hhandle|].
  apply Hold. reflexivity.
Defined.

Lemma event_loop_keeps_single_timer_witness :
  match @steps demoHost (@newRuntime demoHost demoDisk)
          (rescanRace ++ rescanRaceEnd) with
  | Some r => singleTimer (tracker r)
  | None => False
  end.
Proof.
  destruct (@steps demoHost (@newRuntime demoHost demoDisk)
              (rescanRace ++ rescanRaceEnd)) as [r|] eqn:E.
  - apply (@event_loop_keeps_single_timer demoHost demoDisk
             (rescanRace ++ rescanRaceEnd) r); [|exact E].
    repeat constructor.
  - vm_compute in E. discriminate.
Defined.

Section TimerFire.
Context `{Host}.

Lemma workspaceDidUpdate_posted_frame t t' :
  filePaths t' = filePaths t -> providerAlive t' = providerAlive t ->
  posted t' = posted t ->
  posted (workspaceDidUpdate t') = posted (workspaceDidUpdate t).
Proof.
  intros Hf Ha Hp. unfold workspaceDidUpdate.
  destruct cwdRoot; [|exact Hp].
  rewrite Ha. destruct (providerAlive t); cbn; [|exact Hp].
  rewrite Hf, Hp. reflexivity.
Qed.

(** X3: when the pending timer fires, no timer is pending afterwards and
    the same timer cannot fire again; the counter restarts from zero;
    with the flag up the re-scan task is queued and nothing is posted,
    with the flag down the snapshot is posted and nothing is queued. *)
Theorem timer_fires_once (r : Runtime) (id : nat) :
  hung r = false -> singleTimer (tracker r) ->
  existsb (Nat.eqb id) (liveTimers (tracker r)) = true ->
  exists r',
    step r (TimerFires id) = Some r'
    /\ liveTimers (tracker r') = []
    /\ step r' (TimerFires id) = None
    /\ eventCount (tracker r') = 0
    /\ needReInit (tracker r') = needReInit (tracker r)
    /\ filePaths (tracker r') = filePaths (tracker r)
    /\ (needReInit (tracker r) = true ->
        notifyQueue r' = notifyQueue r ++ [reinitTask]
        /\ posted (tracker r') = posted (tracker r))
    /\ (needReInit (tracker r) = false ->
        notifyQueue r' = notifyQueue r
        /\ posted (tracker r') = posted (workspaceDidUpdate (tracker r))).
Proof.
  intros Hhung [Hlive _] Hid.
  assert (Hone : liveTimers (tracker r) = [id]).
  { destruct Hlive as [E|(id0 & _ & E)]; rewrite E in Hid; cbn in Hid;
      [discriminate|].
    rewrite orb_false_r in Hid. apply Nat.eqb_eq in Hid. subst. exact E. }
  assert (Hcleared : liveTimers (clearTimeout id (tracker r)) = []).
  { cbn. rewrite Hone. cbn. rewrite Nat.eqb_refl. reflexivity. }
  eexists. split.
  { unfold step. rewrite Hhung, Hid. reflexivity. }
  pose proof (posted_sameTimers (clearTimeout id (tracker r))) as (_ & Hl & _).
  pose proof (workspaceDidUpdate_keeps (clearTimeout id (tracker r))) as [Hf Hn].
  unfold timerCallback. cbn [tracker setTracker].
  change (needReInit (clearTimeout id (tracker r))) with (needReInit (tracker r)).
  destruct (needReInit (tracker r)) eqn:Hflag.
  - cbn [addEventToNotifyQueue tracker setTracker notifyQueue liveTimers
         setEventCount eventCount needReInit filePaths hung posted].
    rewrite Hcleared.
    repeat split; try reflexivity; try discriminate; try assumption.
    unfold step. cbn. rewrite Hhung, Hone. cbn. rewrite Nat.eqb_refl. reflexivity.
  - cbn [tracker setTracker notifyQueue liveTimers setEventCount eventCount
         needReInit filePaths hung posted].
    rewrite Hl, Hcleared, Hf, Hn.
    repeat split; try reflexivity; try discriminate; try assumption.
    + unfold step. cbn. rewrite Hhung, Hl, Hcleared. reflexivity.
    + apply workspaceDidUpdate_posted_frame; reflexivity.
Qed.

(** X4: while a queued task is suspended at an [await], nothing but the
    settling of that [await] moves the chain: the task stays the one under
    way, no queued task starts, and the queue only grows at its end. *)
Theorem suspended_link_blocks_queue (r r' : Runtime) (w : Awaiting unit)
    (i : Input) :
  running r = Some w ->
  (forall res, i <> Settles None res) ->
  step r i = Some r' ->
  running r' = Some w
  /\ exists added, notifyQueue r' = notifyQueue r ++ added.
Proof.
  intros Hrun Hnot. unfold step. destruct (hung r); [discriminate|].
  assert (Hsame : forall q, notifyQueue r = q -> exists added, q = notifyQueue r ++ added).
  { intros q <-. exists []. symmetry. apply app_nil_r. }
  destruct i as [p|p|p|task| |id| |who res|d|].
  1-3: destruct watching; [|discriminate]; intros [= <-]; cbn; eauto.
  - intros [= <-]; cbn; eauto.
  - destruct (exec initializeFilePaths (tracker r) (detached r)) as [[t d] o].
    intros [= <-]. cbn. eauto.
  - destruct (existsb _ _); [|discriminate]. intros [= <-].
    unfold timerCallback. cbn [tracker setTracker].
    destruct (needReInit _); cbn; eauto.
  - rewrite Hrun. discriminate.
  - destruct who as [n|]; [|exfalso; eapply Hnot; reflexivity].
    destruct (nth_error (detached r) n) as [w0|]; [|discriminate].
    destruct (resume w0 res) as [m|]; [|discriminate].
    intros [= <-]. unfold detachedReaches.
    destruct (exec m (tracker r) (detached r)) as [[t d] o]. cbn. eauto.
  - intros [= <-]; cbn; eauto.
  - intros [= <-]; cbn; eauto.
Qed.

End TimerFire.

Lemma timer_fires_once_witness :
  exists r',
    @step demoHost armedRuntime (TimerFires 0) = Some r'
    /\ liveTimers (tracker r') = []
    /\ @step demoHost r' (TimerFires 0) = None
    /\ eventCount (tracker r') = 0
    /\ notifyQueue r' = []
    /\ posted (tracker r') = [["a.txt"]].
Proof.
  assert (Hsingle : singleTimer (tracker armedRuntime)).
  { split; [right; exists 0; split; reflexivity|].
    intros id [= <-]. cbn. lia. }
  destruct (@timer_fires_once demoHost armedRuntime 0 eq_refl Hsingle eq_refl)
    as (r' & Hstep & Hlive & Hagain & Hcount & _ & _ & _ & Hdown).
  destruct (Hdown eq_refl) as [Hqueue Hposted].
  exists r'. repeat (split; [assumption|]).
  rewrite Hposted. reflexivity.
Defined.

Lemma suspended_link_blocks_queue_witness :
  match @step demoHost statPending (FileDeleted "/proj/a") with
  | Some r' =>
      option_map awaited (running r') = Some "stat /proj/a"
      /\ List.length (notifyQueue r') = 1
  | None => False
  end.
Proof.
  destruct (running statPending) as [w|] eqn:Hw;
    [|vm_compute in Hw; discriminate].
  destruct (@step demoHost statPending (FileDeleted "/proj/a")) as [r'|] eqn:E;
    [|vm_compute in E; discriminate].
  destruct (@suspended_link_blocks_queue demoHost statPending r' w
              (FileDeleted "/proj/a") Hw ltac:(discriminate) E)
    as [Hrun (added & Hqueue)].
  split.
  - rewrite Hrun, <- Hw. reflexivity.
  - injection E as <-. reflexivity.
Defined.

(** * What is posted and what is tracked *)

Section Posting.
Context `{Host}.

(** X5: [workspaceDidUpdate] posts nothing without a project root or once
    the provider is gone; otherwise it posts one message of as many
    entries as are tracked, but no more than 1000, in which every tracked
    directory keeps its trailing separator; in no case does it change
    the set, the flag or the counter. *)
Theorem workspaceDidUpdate_posts_capped_snapshot (t : Tracker) :
  filePaths (workspaceDidUpdate t) = filePaths t
  /\ needReInit (workspaceDidUpdate t) = needReInit t
  /\ eventCount (workspaceDidUpdate t) = eventCount t
  /\ (cwdRoot = None \/ providerAlive t = false ->
      posted (workspaceDidUpdate t) = posted t)
  /\ (forall root, cwdRoot = Some root -> providerAlive t = true ->
      exists message,
        posted (workspaceDidUpdate t) = posted t ++ [message]
        /\ List.length message = Nat.min 1000 (List.length (filePaths t))
        /\ forall i file,
             i < 1000 -> nth_error (filePaths t) i = Some file ->
             exists entry,
               nth_error message i = Some entry
               /\ (Path.endsWithSep file = true ->
                   Path.endsWithSep entry = true)).
Proof.
  unfold workspaceDidUpdate.
  destruct cwdRoot as [c|].
  - destruct (providerAlive t) eqn:Halive.
    + repeat split; try reflexivity.
      * intros [E|E]; discriminate.
      * intros root [= <-] _. eexists. split; [reflexivity|].
        split; [rewrite length_map, length_firstn; reflexivity|].
        intros i file Hi Hfile.
        rewrite nth_error_map, nth_error_firstn.
        destruct (Nat.ltb_spec i 1000); [|lia].
        rewrite Hfile. cbn. eexists. split; [reflexivity|].
        intros Hend. rewrite Hend. apply endsWithSep_append_sep.
    + repeat split; try reflexivity; discriminate.
  - repeat split; try reflexivity; discriminate.
Qed.

Lemma setAdd_absorbs x s : setHas x (setAdd x s) = true.
Proof. apply setHas_In, setAdd_In. left. reflexivity. Qed.

Lemma setAdd_again x s : setAdd x (setAdd x s) = setAdd x s.
Proof. unfold setAdd at 1. rewrite setAdd_absorbs. reflexivity. Qed.

(** X6: handling the same addition twice with the same answer of [stat]
    leaves the tracker exactly as handling it once. *)
Theorem addFilePathSettled_twice_is_once (normalizedPath : string)
    (stat : option bool) (t : Tracker) :
  addFilePathSettled normalizedPath stat
    (snd (addFilePathSettled normalizedPath stat t))
  = addFilePathSettled normalizedPath stat t.
Proof.
  destruct t. unfold addFilePathSettled.
  destruct stat as [[|]|]; try destruct (String.eqb _ ".gitignore");
    cbn; rewrite setAdd_again; reflexivity.
Qed.

(** X8: a path whose [stat] says directory always raises the flag, and
    the entry tracked for it ends in the separator, appended unless the
    normalized path already had it. *)
Theorem addFilePathSettled_directory (normalizedPath : string) (t : Tracker) :
  let added := fst (addFilePathSettled normalizedPath (Some true) t) in
  let t' := snd (addFilePathSettled normalizedPath (Some true) t) in
  needReInit t' = true
  /\ Path.endsWithSep added = true
  /\ setHas added (filePaths t') = true
  /\ (Path.endsWithSep normalizedPath = true -> added = normalizedPath)
  /\ (Path.endsWithSep normalizedPath = false ->
      added = normalizedPath +:+ "/").
Proof.
  cbv zeta. unfold addFilePathSettled. cbn [andb].
  destruct (Path.endsWithSep normalizedPath) eqn:Hend; cbn [negb];
    destruct (String.eqb _ ".gitignore"); cbn;
    rewrite ?setAdd_absorbs, ?Hend, ?endsWithSep_append_sep;
    repeat split; auto; try discriminate; apply setAdd_absorbs.
Qed.

End Posting.

(** * Adding, then removing *)

Section AddRemove.
Context `{Host}.

Lemma setHas_setAdd y x s :
  setHas y (setAdd x s) = String.eqb y x || setHas y s.
Proof.
  unfold setAdd. destruct (setHas x s) eqn:Hx.
  - destruct (String.eqb_spec y x) as [->|]; [rewrite Hx|]; reflexivity.
  - unfold setHas. rewrite existsb_app. cbn. rewrite orb_false_r. apply orb_comm.
Qed.

Lemma setHas_setDelete y x s :
  setHas y (snd (setDelete x s)) = negb (String.eqb x y) && setHas y s.
Proof.
  unfold setDelete, setHas. cbn [snd].
  induction s as [|z s IH]; cbn; [rewrite andb_false_r; reflexivity|].
  destruct (String.eqb_spec x z) as [->|Hxz]; cbn.
  - rewrite IH. destruct (String.eqb_spec z y) as [->|Hzy].
    + rewrite String.eqb_refl. reflexivity.
    + cbn. apply String.eqb_neq in Hzy. rewrite String.eqb_sym, Hzy. reflexivity.
  - rewrite IH. destruct (String.eqb y z) eqn:Hyz; cbn.
    + apply String.eqb_eq in Hyz. subst z. apply String.eqb_neq in Hxz.
      rewrite Hxz. reflexivity.
    + reflexivity.
Qed.

Lemma setDelete_setAdd x s :
  setHas x s = false -> snd (setDelete x (setAdd x s)) = s.
Proof.
  intros Hx. unfold setAdd. rewrite Hx. unfold setDelete. cbn [snd].
  rewrite List.filter_app. cbn. rewrite String.eqb_refl. cbn.
  rewrite app_nil_r. apply (setDelete_absent x s Hx).
Qed.

Lemma with_sep_differs s : String.eqb s (s +:+ "/") = false.
Proof.
  apply String.eqb_neq. intros E.
  apply (f_equal String.length) in E. rewrite length_append in E.
  cbn in E. lia.
Qed.

Lemma addFilePathSettled_paths np stat t :
  filePaths (snd (addFilePathSettled np stat t))
  = setAdd (fst (addFilePathSettled np stat t)) (filePaths t).
Proof.
  unfold addFilePathSettled.
  destruct stat as [[|]|]; try destruct (String.eqb _ ".gitignore"); reflexivity.
Qed.

Lemma addFilePathSettled_entry np stat t :
  fst (addFilePathSettled np stat t) = np
  \/ (Path.endsWithSep np = false
      /\ fst (addFilePathSettled np stat t) = np +:+ "/").
Proof.
  unfold addFilePathSettled.
  destruct stat as [[|]|]; cbn; auto.
  destruct (Path.endsWithSep np); cbn; auto.
Qed.

(** What [removeFilePath] returns and the set it leaves depend on the
    set alone. *)
Lemma removeFilePath_paths p t :
  let np := normalizeFilePath p in
  (setHas np (filePaths t) = true ->
     fst (removeFilePath p t) = true
     /\ filePaths (snd (removeFilePath p t)) = snd (setDelete np (filePaths t)))
  /\ (setHas np (filePaths t) = false ->
     fst (removeFilePath p t) = setHas (np +:+ "/") (filePaths t)
     /\ filePaths (snd (removeFilePath p t))
        = snd (setDelete (np +:+ "/") (filePaths t))).
Proof.
  cbv zeta.
  pose proof (setDelete_absent (normalizeFilePath p) (filePaths t)) as Hsame.
  unfold removeFilePath, setDelete in *. cbn [snd] in Hsame.
  destruct (setHas (normalizeFilePath p) (filePaths t)); cbn [negb];
    destruct (String.eqb _ ".gitignore");
    cbn [fst snd filePaths setFilePaths setNeedReInit setGitIgnoreProcessor];
    (split; intros E; [|try discriminate]); try discriminate;
    try (split; reflexivity).
  all: rewrite Hsame by reflexivity; split; reflexivity.
Qed.

(** X7: removing a path right after adding it, whatever [stat] answered:
    something is removed, the plain entry is not tracked afterwards, and
    when the path was tracked in neither form before, the set is back to
    what it was.  (When the plain entry was tracked and [stat] says
    directory, the directory entry that was added stays.) *)
Theorem remove_after_add (filePath : string) (stat : option bool)
    (t : Tracker) :
  let np := normalizeFilePath filePath in
  let t1 := snd (addFilePathSettled np stat t) in
  let removed := fst (removeFilePath filePath t1) in
  let t2 := snd (removeFilePath filePath t1) in
  removed = true
  /\ setHas np (filePaths t2) = false
  /\ (setHas np (filePaths t) = false ->
      setHas (np +:+ "/") (filePaths t) = false ->
      filePaths t2 = filePaths t)
  /\ (setHas np (filePaths t) = true -> stat = Some true ->
      Path.endsWithSep np = false ->
      setHas (np +:+ "/") (filePaths t2) = true).
Proof.
  cbv zeta.
  set (np := normalizeFilePath filePath).
  set (t1 := snd (addFilePathSettled np stat t)).
  pose proof (addFilePathSettled_paths np stat t) as Hpaths. fold t1 in Hpaths.
  destruct (removeFilePath_paths filePath t1) as [Hfile Hnofile].
  fold np in Hfile, Hnofile.
  assert (Hhas : setHas np (filePaths t1)
                 = String.eqb np (fst (addFilePathSettled np stat t))
                   || setHas np (filePaths t))
    by (rewrite Hpaths; apply setHas_setAdd).
  destruct (addFilePathSettled_entry np stat t) as [Hentry|[Hend Hentry]];
    rewrite Hentry in *.
  - rewrite String.eqb_refl in Hhas. cbn in Hhas.
    destruct (Hfile Hhas) as [-> ->].
    split; [reflexivity|]. split.
    { rewrite setHas_setDelete, String.eqb_refl. reflexivity. }
    split.
    + intros Hnp _. rewrite Hpaths. apply setDelete_setAdd, Hnp.
    + intros _ Hstat Hend. exfalso.
      subst stat. unfold addFilePathSettled in Hentry. cbn in Hentry.
      rewrite Hend in Hentry. cbn in Hentry.
      pose proof (with_sep_differs np) as Hd. rewrite Hentry in Hd.
      rewrite String.eqb_refl in Hd. discriminate.
  - rewrite with_sep_differs in Hhas. cbn in Hhas.
    destruct (setHas np (filePaths t)) eqn:Hnp.
    + destruct (Hfile Hhas) as [-> ->].
      split; [reflexivity|]. split.
      { rewrite setHas_setDelete, String.eqb_refl. reflexivity. }
      split; [discriminate|].
      intros _ _ _. rewrite setHas_setDelete, with_sep_differs, Hpaths.
      cbn. rewrite setHas_setAdd, String.eqb_refl. reflexivity.
    + destruct (Hnofile Hhas) as [-> ->].
      rewrite Hpaths. split; [apply setAdd_absorbs|]. split.
      { rewrite setHas_setDelete, setHas_setAdd, Hnp.
        rewrite String.eqb_sym, with_sep_differs. reflexivity. }
      split; [|discriminate].
      intros _ Hdir. apply setDelete_setAdd, Hdir.
Qed.

End AddRemove.

(** * The set after a re-scan *)

Section Listing.
Context `{Host}.

Lemma setAdd_NoDup x s : List.NoDup s -> List.NoDup (setAdd x s).
Proof.
  intros Hs. unfold setAdd. destruct (setHas x s) eqn:Hx; [exact Hs|].
  apply List.NoDup_app; [exact Hs | repeat constructor; intros [] |].
  intros y Hy [<-|[]].
  apply setHas_In in Hy. congruence.
Qed.

Lemma setAdd_length x s : List.length (setAdd x s) <= S (List.length s).
Proof.
  unfold setAdd. destruct (setHas x s); [lia|].
  rewrite length_app. cbn. lia.
Qed.

Lemma listed_paths files : forall acc,
  List.NoDup acc ->
  let paths := fold_left (fun acc file => setAdd (normalizeFilePath file) acc)
                 files acc in
  List.NoDup paths
  /\ (forall x, In x paths <->
                In x acc \/ exists file, In file files /\ x = normalizeFilePath file)
  /\ List.length paths <= List.length acc + List.length files.
Proof.
  induction files as [|f files IH]; intros acc Hacc; cbn [fold_left].
  - cbv zeta. split; [exact Hacc|]. split; [|cbn; lia].
    intros x. split; [auto|]. intros [Hx|(file & [] & _)]. exact Hx.
  - destruct (IH (setAdd (normalizeFilePath f) acc) (setAdd_NoDup _ _ Hacc))
      as (Hnd & Hin & Hlen).
    cbv zeta in *. split; [exact Hnd|]. split.
    + intros x. rewrite Hin, setAdd_In. split.
      * intros [[->|Hx]|(file & Hfile & ->)]; eauto.
        -- right. exists f. split; [left; reflexivity | reflexivity].
        -- right. exists file. split; [right; exact Hfile | reflexivity].
      * intros [Hx|(file & [<-|Hfile] & ->)]; eauto.
    + pose proof (setAdd_length (normalizeFilePath f) acc). cbn [List.length]. lia.
Qed.

(** X9: when the listing of a re-scan arrives, the set becomes exactly
    the normalized forms of the listed files, each once however often
    it was listed, and what was tracked or added meanwhile is gone. *)
Theorem rescan_tracks_exactly_the_listing (files : list string) (t : Tracker) :
  let paths := filePaths (initializeFilePathsSettled files t) in
  List.NoDup paths
  /\ (forall x, In x paths <->
                exists file, In file files /\ x = normalizeFilePath file)
  /\ List.length paths <= List.length files.
Proof.
  cbv zeta. unfold initializeFilePathsSettled.
  rewrite (proj1 (workspaceDidUpdate_keeps _)). cbn [filePaths setNeedReInit setFilePaths].
  destruct (listed_paths files [] (List.NoDup_nil _)) as (Hnd & Hin & Hlen).
  cbv zeta in *. split; [exact Hnd|]. split; [|exact Hlen].
  intros x. rewrite Hin. split; [intros [[]|Hx]; exact Hx | auto].
Qed.

(** X10: with an absolute working directory, every normalized path is
    absolute and made of names joined by separators, with no empty
    segment, no [.] and no [..]; it ends in one more separator exactly
    when the raw path ended in one. *)
Theorem normalizeFilePath_is_absolute_and_clean (filePath : string) :
  Path.isAbsolute processCwd = true ->
  exists names,
    Forall (fun n => isName n = true) names
    /\ normalizeFilePath filePath
       = String Path.sep (Path.join names)
         +:+ (if Path.endsWithSep filePath then "/" else "")
    /\ Path.isAbsolute (normalizeFilePath filePath) = true.
Proof.
  intros Hpc. destruct (resolved_names filePath Hpc) as (names & Hn & Hres).
  exists names. split; [exact Hn|].
  rewrite normalizeFilePath_unfold, Hres.
  destruct (Path.endsWithSep filePath); split;
    try reflexivity.
  symmetry. apply append_empty_r.
Qed.

End Listing.

Lemma rescan_tracks_exactly_the_listing_witness :
  List.NoDup (filePaths (@initializeFilePathsSettled demoHost
                ["b.txt"; "/proj/b.txt"; "sub/"; "./sub/"] trackedDemo))
  /\ In "/proj/sub/"
       (filePaths (@initializeFilePathsSettled demoHost
                     ["b.txt"; "/proj/b.txt"; "sub/"; "./sub/"] trackedDemo))
  /\ ~ In "/proj/a.txt"
       (filePaths (@initializeFilePathsSettled demoHost
                     ["b.txt"; "/proj/b.txt"; "sub/"; "./sub/"] trackedDemo)).
Proof.
  destruct (@rescan_tracks_exactly_the_listing demoHost
              ["b.txt"; "/proj/b.txt"; "sub/"; "./sub/"] trackedDemo)
    as (Hnd & Hin & _).
  split; [exact Hnd|]. split.
  - apply Hin. exists "sub/". split; [cbn; auto | reflexivity].
  - intros Ha. apply Hin in Ha as (file & Hfile & E).
    cbn in Hfile. destruct Hfile as [<-|[<-|[<-|[<-|[]]]]]; vm_compute in E;
      discriminate.
Defined.

Lemma normalizeFilePath_is_absolute_and_clean_witness :
  exists names,
    Forall (fun n => isName n = true) names
    /\ @normalizeFilePath demoHost "sub/../lib//x/"
       = String Path.sep (Path.join names) +:+ "/".
Proof.
  destruct (@normalizeFilePath_is_absolute_and_clean demoHost
              "sub/../lib//x/" eq_refl) as (names & Hn & Hshape & _).
  exists names. split; [exact Hn | exact Hshape].
Defined.

(** * What the watcher tasks do to the flag, the set and the cache *)

(** The tracker a call ends in, and what it is left awaiting, do not
    depend on the detached calls parked so far. *)
Lemma exec_keeps_alone (P : Tracker -> Prop) {A} (m : Async A) : forall t d,
  keeps P m -> P t ->
  P (fst (fst (exec m t d)))
  /\ forall w, snd (exec m t d) = Suspended w -> awaitingKeeps P w.
Proof.
  induction m as [A a|A|A|A k IH|A t1 k IHk|A p k IH|A root rec lim k IH|A c IHc k IHk];
    intros t d Hm Ht; cbn [exec keeps] in *.
  1-3: split; [exact Ht | discriminate].
  - apply IH; auto.
  - destruct Hm. apply IHk; auto.
  - split; [exact Ht|]. intros w [= <-]. exact Hm.
  - split; [exact Ht|]. intros w [= <-]. exact Hm.
  - destruct Hm as [Hc Hk].
    destruct (IHc t d Hc Ht) as [Ht1 _].
    destruct (exec c t d) as [[t1 d1] o]. cbn [fst] in Ht1.
    destruct o; try (apply IHk; assumption).
    split; [exact Ht1 | discriminate].
Qed.

Section WatcherTasks.
Context `{Host}.

Lemma removeFilePath_flag p t :
  needReInit t = true -> needReInit (snd (removeFilePath p t)) = true.
Proof.
  intros Hflag. unfold removeFilePath, setDelete.
  destruct (setHas _ (filePaths t)); destruct (String.eqb _ ".gitignore");
    cbn; auto.
Qed.

Lemma addFilePathSettled_flag np stat t :
  needReInit t = true -> needReInit (snd (addFilePathSettled np stat t)) = true.
Proof.
  intros Hflag. unfold addFilePathSettled.
  destruct stat as [[|]|]; try destruct (String.eqb _ ".gitignore"); cbn; auto.
Qed.

Lemma watcher_tasks_keep_flag p :
  keeps flagRaised (onDidCreate p) /\ keeps flagRaised (onDidDelete p)
  /\ keeps flagRaised (onDidChange p).
Proof.
  apply handlers_keep; unfold flagRaised.
  - intros t Ht. rewrite incrementEventAndDetectFlood_flag, Ht. apply orb_true_r.
  - intros q globs t Ht.
    destruct (shouldIgnoreGlob q globs t) as [res t'] eqn:E.
    rewrite (shouldIgnoreGlob_frame _ _ _ _ _ E). exact Ht.
  - intros q t. apply removeFilePath_flag.
  - intros np stat t. apply addFilePathSettled_flag.
  - intros t Ht. unfold triggerWorkspaceDidUpdate.
    destruct (workspaceDidUpdateTimeout t); exact Ht.
Qed.

(** X11: once the flag is up, neither the handling of a creation, a
    deletion or a change, before or after its [await], nor the firing of
    the timer lowers it; only a listing that arrives does. *)
Theorem flag_is_lowered_by_the_rescan_only (fsPath : string) (task : Async unit) :
  In task [onDidCreate fsPath; onDidDelete fsPath; onDidChange fsPath] ->
  (forall t d,
     needReInit t = true ->
     needReInit (fst (fst (exec task t d))) = true
     /\ forall w res m t' d',
          snd (exec task t d) = Suspended w -> resume w res = Some m ->
          needReInit t' = true ->
          needReInit (fst (fst (exec m t' d'))) = true)
  /\ (forall r, needReInit (tracker (timerCallback r)) = needReInit (tracker r)).
Proof.
  intros Htask. split.
  - assert (Hkeeps : keeps flagRaised task).
    { destruct (watcher_tasks_keep_flag fsPath) as (H1 & H2 & H3).
      destruct Htask as [<-|[<-|[<-|[]]]]; assumption. }
    intros t d Ht.
    destruct (exec_keeps_alone flagRaised task t d Hkeeps Ht) as [Hend Hw].
    split; [exact Hend|].
    intros w res m t' d' Hsusp Hres Ht'.
    apply (exec_keeps_alone flagRaised m t' d'); [|exact Ht'].
    eapply awaitingKeeps_resume; [apply Hw, Hsusp | exact Hres].
  - intros r. unfold timerCallback.
    destruct (needReInit (tracker r)) eqn:Hflag; cbn; [exact Hflag|].
    rewrite (proj2 (workspaceDidUpdate_keeps (tracker r))). exact Hflag.
Qed.

(** X12: a raw event that the ignore rules or the configured globs
    filter out is counted and ends there: the set, the timers and the
    webview are untouched, whichever of the three kinds it is. *)
Theorem filtered_event_is_only_counted (fsPath : string) (task : Async unit)
    (t t1 : Tracker) (d : list (Awaiting unit)) :
  In task [onDidCreate fsPath; onDidDelete fsPath; onDidChange fsPath] ->
  shouldIgnoreGlob fsPath getDirsToIgnore (incrementEventAndDetectFlood t)
  = (Normal true, t1) ->
  exec task t d = (t1, d, Fulfilled tt)
  /\ eventCount t1 = S (eventCount t)
  /\ filePaths t1 = filePaths t
  /\ sameTimers t t1
  /\ posted t1 = posted t.
Proof.
  intros Htask Hfilter.
  pose proof (shouldIgnoreGlob_frame _ _ _ _ _ Hfilter) as Hframe.
  split.
  - destruct Htask as [<-|[<-|[<-|[]]]];
      unfold onDidCreate, onDidDelete, onDidChange, modify, call;
      cbn [bind exec]; rewrite Hfilter; reflexivity.
  - rewrite Hframe. cbn.
    rewrite incrementEventAndDetectFlood_count.
    unfold incrementEventAndDetectFlood.
    destruct (Nat.ltb _ _); repeat split.
Qed.

(** X13: the handling of a change to a path named [.gitignore] that the
    filter lets through has emptied the rule cache and raised the flag by
    the time it awaits the [stat].  Whatever state the tracker is in when
    the [stat] settles, the task fulfils: after a [stat] that answered,
    the cache is empty and the flag up once more; after one that
    rejected, the processor and the flag are as the task found them on
    resumption. *)
Theorem gitignore_change_invalidates_before_stat (fsPath : string)
    (t t1 : Tracker) (d : list (Awaiting unit)) :
  Path.basename (normalizeFilePath fsPath) = ".gitignore" ->
  shouldIgnoreGlob fsPath getDirsToIgnore (incrementEventAndDetectFlood t)
  = (Normal false, t1) ->
  exists t2 k,
    exec (onDidChange fsPath) t d
    = (t2, d, Suspended (AwaitingStat (normalizeFilePath fsPath) k))
    /\ gitignoreCache (gitIgnoreProcessor t2) = ∅
    /\ needReInit t2 = true
    /\ forall stat t' d',
         snd (exec (k stat) t' d') = Fulfilled tt
         /\ (stat <> None ->
             gitignoreCache (gitIgnoreProcessor (fst (fst (exec (k stat) t' d'))))
             = ∅
             /\ needReInit (fst (fst (exec (k stat) t' d'))) = true)
         /\ (stat = None ->
             gitIgnoreProcessor (fst (fst (exec (k stat) t' d')))
             = gitIgnoreProcessor t'
             /\ needReInit (fst (fst (exec (k stat) t' d'))) = needReInit t').
Proof.
  intros Hbase Hfilter.
  destruct (removeFilePath_gitignore fsPath t1 Hbase) as [Hcache Hflag].
  exists (snd (removeFilePath fsPath t1)). eexists. split.
  { unfold onDidChange, modify, call, callTotal, addFilePath.
    cbn [bind exec]. rewrite Hfilter. cbn [bind exec].
    destruct (removeFilePath fsPath t1) as [removed t2]. cbn [bind exec snd].
    reflexivity. }
  split; [exact Hcache|]. split; [exact Hflag|].
  intros stat t' d'. cbv beta. unfold callTotal, modify. cbn [bind exec].
  assert (Hadded :
    (stat <> None ->
     gitignoreCache (gitIgnoreProcessor
       (snd (addFilePathSettled (normalizeFilePath fsPath) stat t'))) = ∅
     /\ needReInit (snd (addFilePathSettled (normalizeFilePath fsPath) stat t'))
        = true)
    /\ (stat = None ->
        gitIgnoreProcessor
          (snd (addFilePathSettled (normalizeFilePath fsPath) stat t'))
        = gitIgnoreProcessor t'
        /\ needReInit (snd (addFilePathSettled (normalizeFilePath fsPath) stat t'))
           = needReInit t')).
  { unfold addFilePathSettled. rewrite Hbase.
    destruct stat as [[|]|]; cbn; split; intros Hstat;
      try congruence; split; reflexivity. }
  destruct (addFilePathSettled (normalizeFilePath fsPath) stat t') as [added t3].
  cbn [bind exec fst snd] in *.
  split; [reflexivity|].
  unfold triggerWorkspaceDidUpdate.
  destruct (workspaceDidUpdateTimeout t3); cbn; exact Hadded.
Qed.

End WatcherTasks.

(** * The rule cache *)

Section RuleCache.
Context `{Host}.

Lemma getGitignoreRulesForPath_cached d dir g rules g' :
  getGitignoreRulesForPath d dir g = Some (rules, g') ->
  gitignoreCache g' !! dir = Some rules.
Proof.
  unfold getGitignoreRulesForPath.
  destruct (gitignoreCache g !! dir) as [cached|] eqn:Hhit.
  - intros [= <- <-]. exact Hhit.
  - destruct (walkUp _ _ _ _ _); [|discriminate].
    intros [= <- <-]. cbn. apply lookup_insert_eq.
Qed.

Lemma getGitignoreRulesForPath_hit d dir g rules :
  gitignoreCache g !! dir = Some rules ->
  getGitignoreRulesForPath d dir g = Some (rules, g).
Proof. intros Hhit. unfold getGitignoreRulesForPath. rewrite Hhit. reflexivity. Qed.

(** X14: once a query in a directory has been answered, every later
    query in that directory is answered from the cache: its answer and
    the processor it leaves are the same on any disk. *)
Theorem answered_directory_is_not_read_again (d d1 d2 : Disk)
    (g : GitIgnoreProcessor) (first later : string)
    (globs globs' : list string) :
  fst (shouldIgnoreFile d first globs g) <> Unfinished ->
  Path.dirname later = Path.dirname first ->
  shouldIgnoreFile d1 later globs' (snd (shouldIgnoreFile d first globs g))
  = shouldIgnoreFile d2 later globs' (snd (shouldIgnoreFile d first globs g)).
Proof.
  intros Hdone Hdir.
  assert (Hcached : exists rules,
            gitignoreCache (snd (shouldIgnoreFile d first globs g))
              !! Path.dirname first = Some rules).
  { unfold shouldIgnoreFile in *.
    destruct (getGitignoreRulesForPath d (Path.dirname first) g)
      as [[rules g']|] eqn:Hget; [|cbn in Hdone; congruence].
    exists rules. apply getGitignoreRulesForPath_cached in Hget.
    destruct (ignores rules _) as [[|]|]; [| destruct (isMatch _ _) |]; exact Hget. }
  destruct Hcached as [rules Hcached].
  unfold shouldIgnoreFile at 1 3. rewrite Hdir.
  rewrite !(getGitignoreRulesForPath_hit _ _ _ _ Hcached). reflexivity.
Qed.

(** X15: a query never replaces a cached ruleset and never changes the
    root: entries leave the cache through [clearCache] only. *)
Theorem query_keeps_cached_rules (d : Disk) (g : GitIgnoreProcessor)
    (filePath dir : string) (globs rules : list string) :
  gitignoreCache g !! dir = Some rules ->
  gitignoreCache (snd (shouldIgnoreFile d filePath globs g)) !! dir = Some rules
  /\ workspacePath (snd (shouldIgnoreFile d filePath globs g)) = workspacePath g.
Proof.
  intros Hhit. unfold shouldIgnoreFile, getGitignoreRulesForPath.
  destruct (gitignoreCache g !! Path.dirname filePath) as [cached|] eqn:Hq.
  - destruct (ignores cached _) as [[|]|]; [| destruct (isMatch _ _) |]; split; auto.
  - destruct (walkUp _ _ _ _ _) as [walked|]; [|split; auto].
    assert (Hne : Path.dirname filePath <> dir) by congruence.
    destruct (ignores walked _) as [[|]|]; [| destruct (isMatch _ _) |]; cbn; rewrite lookup_insert_ne by exact Hne;
      split; auto.
Qed.

Lemma addGitignoreOf_readableOnly d dir acc :
  addGitignoreOf (readableOnly d) dir acc = addGitignoreOf d dir acc.
Proof.
  unfold addGitignoreOf, readableOnly. cbn.
  destruct (existsSync d _); cbn; [|reflexivity].
  destruct (readFileSync d _); reflexivity.
Qed.

Lemma walkUp_readableOnly d ws : forall fuel dir acc,
  walkUp fuel (readableOnly d) ws dir acc = walkUp fuel d ws dir acc.
Proof.
  induction fuel as [|fuel IH]; intros dir acc; cbn [walkUp].
  - reflexivity.
  - rewrite addGitignoreOf_readableOnly, IH. reflexivity.
Qed.

(** X18: a [.gitignore] that exists but cannot be read is passed over
    and the walk goes on: every answer is the one given on the disk
    without that file. *)
Theorem unreadable_gitignore_counts_as_absent (d : Disk)
    (g : GitIgnoreProcessor) (filePath : string) (globs : list string) :
  shouldIgnoreFile d filePath globs g
  = shouldIgnoreFile (readableOnly d) filePath globs g.
Proof.
  unfold shouldIgnoreFile, getGitignoreRulesForPath.
  rewrite walkUp_readableOnly. reflexivity.
Qed.

End RuleCache.

(** * Where the walk ends and where it does not *)

Section WalkEdges.
Context `{Host}.

Lemma shouldIgnoreFile_root d filePath globs g :
  workspacePath (snd (shouldIgnoreFile d filePath globs g)) = workspacePath g.
Proof.
  unfold shouldIgnoreFile.
  destruct (getGitignoreRulesForPath d (Path.dirname filePath) g)
    as [[rules g']|] eqn:Hget; [|reflexivity].
  apply getGitignoreRulesForPath_root in Hget.
  destruct (ignores rules _) as [[|]|]; [| destruct (isMatch _ _) |]; exact Hget.
Qed.

Lemma shouldIgnoreGlob_root p globs t :
  workspacePath (gitIgnoreProcessor (snd (shouldIgnoreGlob p globs t)))
  = workspacePath (gitIgnoreProcessor t).
Proof.
  unfold shouldIgnoreGlob.
  pose proof (shouldIgnoreFile_root (disk t) p [] (gitIgnoreProcessor t)) as Hroot.
  destruct (shouldIgnoreFile (disk t) p [] (gitIgnoreProcessor t)) as [res g].
  destruct res as [[|]| |]; [| destruct (isMatch _ _) | |]; exact Hroot.
Qed.

Lemma shouldIgnoreGlob_finishes p globs t :
  rooted t -> fst (shouldIgnoreGlob p globs t) <> Unfinished.
Proof.
  intros Hroot. unfold shouldIgnoreGlob.
  pose proof (shouldIgnoreFile_finishes (disk t) p [] (gitIgnoreProcessor t) Hroot)
    as Hdone.
  destruct (shouldIgnoreFile (disk t) p [] (gitIgnoreProcessor t)) as [res g].
  destruct res as [[|]| |]; [| destruct (isMatch _ _) | |];
    cbn in *; congruence.
Qed.

Lemma newTracker_rooted d : processCwd <> "" -> rooted (newTracker d).
Proof.
  intros Hcwd. unfold rooted, newTracker, cwdRoot. cbn.
  destruct cwd as [c|]; [|exact Hcwd].
  destruct (String.eqb_spec c ""); [exact Hcwd | assumption].
Qed.

(** X16: in every state the event loop reaches from a new tracker, with
    a working directory that is not the empty string, the ignore filter
    returns or throws for every path: the walk up the directories always
    ends, whatever the disk holds. *)
Theorem filter_answers_in_every_reachable_state (d : Disk)
    (inputs : list Input) (r : Runtime) (fsPath : string)
    (globs : list string) :
  processCwd <> "" ->
  Forall (inputKeeps rooted) inputs ->
  steps (newRuntime d) inputs = Some r ->
  fst (shouldIgnoreGlob fsPath globs (tracker r)) <> Unfinished.
Proof.
  intros Hcwd Hin Hsteps. apply shouldIgnoreGlob_finishes.
  assert (Hkeep : runtimeKeeps rooted r).
  { apply (steps_keep rooted) with (inputs := inputs) (r := newRuntime d);
      try assumption; unfold rooted.
    - intros t Ht. unfold incrementEventAndDetectFlood.
      destruct (Nat.ltb _ _); exact Ht.
    - intros p gl t Ht. rewrite shouldIgnoreGlob_root. exact Ht.
    - intros p t Ht. unfold removeFilePath, setDelete.
      destruct (setHas _ (filePaths t)); destruct (String.eqb _ ".gitignore");
        exact Ht.
    - intros np stat t Ht. unfold addFilePathSettled.
      destruct stat as [[|]|]; try destruct (String.eqb _ ".gitignore"); exact Ht.
    - intros t Ht. unfold triggerWorkspaceDidUpdate.
      destruct (workspaceDidUpdateTimeout t); exact Ht.
    - intros t Ht. exact Ht.
    - intros files t Ht. unfold initializeFilePathsSettled, workspaceDidUpdate.
      destruct cwdRoot; [|exact Ht]. destruct (providerAlive _); exact Ht.
    - intros id t Ht. exact Ht.
    - intros t Ht. unfold workspaceDidUpdate.
      destruct cwdRoot; [|exact Ht]. destruct (providerAlive _); exact Ht.
    - intros t Ht. exact Ht.
    - intros d0 t Ht. exact Ht.
    - intros t Ht. exact Ht.
    - split; [apply newTracker_rooted, Hcwd|].
      repeat split; cbn; auto; discriminate. }
  apply Hkeep.
Qed.

Lemma dirname_relative p :
  Path.isAbsolute p = false ->
  Path.isAbsolute (Path.dirname p) = false /\ Path.dirname p <> "".
Proof.
  destruct p as [|c0 r]; [split; [reflexivity | discriminate]|].
  cbn [Path.isAbsolute]. intros Hc0. unfold Path.dirname. rewrite Hc0.
  destruct (Path.dropWhile Path.notSep _) as [|sepc [|b before]];
    cbn; rewrite ?Hc0; split; auto; discriminate.
Qed.

Lemma prefix_empty s : String.prefix "" s = true.
Proof. destruct s; reflexivity. Qed.

Lemma walkUp_without_root d : forall fuel dir acc,
  Path.isAbsolute dir = false -> dir <> "" ->
  walkUp fuel d "" dir acc = None.
Proof.
  induction fuel as [|fuel IH]; intros dir acc Hrel Hne;
    apply String.eqb_neq in Hne as Hneb; cbn [walkUp];
    unfold Path.startsWith, Path.parseRoot; rewrite Hrel;
    rewrite prefix_empty, Hneb; cbn [andb negb].
  - reflexivity.
  - destruct (dirname_relative dir Hrel) as [Hrel' Hne'].
    apply IH; assumption.
Qed.

(** X17: a processor made with the empty string as root never answers
    for a relative path whose directory is not cached: no number of
    rounds of the walk is enough. *)
Theorem empty_root_walk_never_ends (d : Disk) (g : GitIgnoreProcessor)
    (filePath : string) (globs : list string) :
  workspacePath g = "" ->
  Path.isAbsolute filePath = false ->
  gitignoreCache g !! Path.dirname filePath = None ->
  (forall fuel acc, walkUp fuel d (workspacePath g) (Path.dirname filePath) acc = None)
  /\ fst (shouldIgnoreFile d filePath globs g) = Unfinished.
Proof.
  intros Hroot Hrel Hmiss.
  destruct (dirname_relative filePath Hrel) as [Hrel' Hne'].
  assert (Hnever : forall fuel acc,
            walkUp fuel d (workspacePath g) (Path.dirname filePath) acc = None).
  { intros fuel acc. rewrite Hroot. apply walkUp_without_root; assumption. }
  split; [exact Hnever|].
  unfold shouldIgnoreFile, getGitignoreRulesForPath.
  rewrite Hmiss, Hnever. reflexivity.
Qed.

End WalkEdges.

(** * Directories that only share the root's first characters *)

Section Siblings.
Context `{Host}.

Lemma prefix_shorter p : forall s,
  String.length s < String.length p -> String.prefix p s = false.
Proof.
  induction p as [|c p IH]; intros s Hlen; [cbn in Hlen; lia|].
  destruct s as [|c' s]; [reflexivity|]. cbn.
  destruct (ascii_dec c c'); [|reflexivity].
  apply IH. cbn in Hlen. lia.
Qed.

Lemma walkUp_from_sibling d base name suffix names :
  base <> "" -> base <> "/" -> suffix <> "" ->
  isName (name +:+ suffix) = true ->
  Forall (fun n => isName n = true) names ->
  forall fuel acc, List.length names < fuel ->
    walkUp fuel d (pathOf base [name])
      (pathOf (pathOf base [name +:+ suffix]) names) acc
    = Some (acc ++ mergedRuleset d (pathOf base [name +:+ suffix]) names).
Proof.
  intros Hb1 Hb2 Hsuffix Hsib Hn.
  set (ws := pathOf base [name]).
  set (sibling := pathOf base [name +:+ suffix]).
  destruct (pathOf_proper base [name +:+ suffix] Hb1 Hb2) as [S1 S2].
  fold sibling in S1, S2.
  assert (Hlen : String.length ws < String.length sibling).
  { unfold ws, sibling. cbn. rewrite !length_append. cbn.
    rewrite length_append. destruct suffix; [congruence | cbn; lia]. }
  assert (Hext : sibling = ws +:+ suffix).
  { unfold ws, sibling. cbn. rewrite append_assoc. reflexivity. }
  assert (Hstart : forall up, Path.startsWith (pathOf sibling up) ws = true).
  { intros up. destruct (pathOf_extends sibling up) as [rest ->].
    rewrite Hext, append_assoc. apply prefix_append. }
  assert (Hdiff : forall up, String.eqb (pathOf sibling up) ws = false).
  { intros up. apply String.eqb_neq. intros E.
    pose proof (pathOf_length sibling up) as Hup. rewrite E in Hup. lia. }
  induction Hn as [|n up Hname Hup IH]; intros fuel acc Hfuel;
    (destruct fuel as [|fuel]; [cbn in Hfuel; lia|]).
  - assert (Hs0 : Path.startsWith sibling ws = true) by exact (Hstart []).
    assert (Hd0 : String.eqb sibling ws = false) by exact (Hdiff []).
    cbn [pathOf walkUp].
    rewrite Hs0, not_parseRoot by assumption.
    cbn [andb negb]. rewrite Hd0.
    unfold sibling at 1. cbn [pathOf].
    rewrite dirname_child by assumption.
    assert (Hout : Path.startsWith base ws = false).
    { apply prefix_shorter. unfold ws. cbn. rewrite length_append. cbn. lia. }
    rewrite addGitignoreOf_contents.
    destruct fuel; cbn [walkUp]; rewrite Hout; cbn [andb];
      unfold mergedRuleset; cbn; rewrite app_nil_r; reflexivity.
  - destruct (pathOf_proper sibling (n :: up) S1 S2) as [P1 P2].
    destruct (pathOf_proper sibling up S1 S2) as [Q1 Q2].
    cbn [walkUp].
    rewrite (Hstart (n :: up)), not_parseRoot by assumption.
    cbn [andb negb]. rewrite (Hdiff (n :: up)). cbn [pathOf].
    rewrite dirname_child by assumption.
    rewrite IH by (cbn in Hfuel; lia).
    rewrite addGitignoreOf_contents, <- app_assoc. reflexivity.
Qed.

(** X19: the walk tests [startsWith] on strings, so a sibling of the root
    whose name begins with the root's name is walked like a directory of
    the project: for [base/name] as root and a directory at or below
    [base/name+suffix], the rules are those of the [.gitignore] files
    from that directory up to [base/name+suffix], and the root's own
    [.gitignore] is not read. *)
Theorem sibling_with_root_prefix_is_walked (d : Disk)
    (base name suffix : string) (names : list string) :
  base <> "" -> base <> "/" -> suffix <> "" ->
  isName (name +:+ suffix) = true ->
  Forall (fun n => isName n = true) names ->
  let sibling := pathOf base [name +:+ suffix] in
  option_map fst
    (getGitignoreRulesForPath d (pathOf sibling names)
       (newGitIgnoreProcessor (pathOf base [name])))
  = Some (mergedRuleset d sibling names).
Proof.
  intros Hb1 Hb2 Hsuffix Hsib Hn. cbv zeta.
  unfold getGitignoreRulesForPath. cbn [gitignoreCache newGitIgnoreProcessor workspacePath].
  rewrite lookup_empty.
  rewrite (walkUp_from_sibling d base name suffix names Hb1 Hb2 Hsuffix Hsib Hn).
  - reflexivity.
  - unfold walkFuel.
    pose proof (pathOf_length (pathOf base [name +:+ suffix]) names). lia.
Qed.

End Siblings.

(** * Instances on the demo project *)

Lemma workspaceDidUpdate_posts_capped_snapshot_witness :
  (exists message,
     posted (@workspaceDidUpdate demoHost trackedDemo) = [message]
     /\ List.length message = 2
     /\ exists entry,
          nth_error message 1 = Some entry /\ Path.endsWithSep entry = true)
  /\ posted (@workspaceDidUpdate desktopHost trackedDemo) = [].
Proof.
  split.
  - destruct (@workspaceDidUpdate_posts_capped_snapshot demoHost trackedDemo)
      as (_ & _ & _ & _ & Hpost).
    destruct (Hpost "/proj" eq_refl eq_refl) as (message & Hposted & Hlen & Hdir).
    exists message. split; [exact Hposted|]. split; [exact Hlen|].
    destruct (Hdir 1 "/proj/sub/" ltac:(lia) eq_refl) as (entry & Hentry & Hsep).
    exists entry. split; [exact Hentry | apply Hsep; reflexivity].
  - destruct (@workspaceDidUpdate_posts_capped_snapshot desktopHost trackedDemo)
      as (_ & _ & _ & Hnone & _).
    apply Hnone. left. reflexivity.
Defined.

Lemma remove_after_add_witness :
  filePaths
    (snd (@removeFilePath demoHost "new"
            (snd (addFilePathSettled (@normalizeFilePath demoHost "new")
                    (Some true) trackedDemo))))
  = filePaths trackedDemo
  /\ setHas "/proj/a.txt/"
       (filePaths
          (snd (@removeFilePath demoHost "a.txt"
                  (snd (addFilePathSettled (@normalizeFilePath demoHost "a.txt")
                          (Some true) trackedDemo)))))
     = true.
Proof.
  split.
  - apply (proj1 (proj2 (proj2 (@remove_after_add demoHost "new" (Some true)
                                   trackedDemo)))); reflexivity.
  - apply (proj2 (proj2 (proj2 (@remove_after_add demoHost "a.txt" (Some true)
                                   trackedDemo)))); reflexivity.
Defined.

Lemma addFilePathSettled_directory_witness :
  fst (addFilePathSettled "/proj/lib" (Some true) demoTracker) = "/proj/lib/"
  /\ fst (addFilePathSettled "/proj/lib/" (Some true) demoTracker) = "/proj/lib/".
Proof.
  split.
  - apply (proj2 (proj2 (proj2 (proj2
             (addFilePathSettled_directory "/proj/lib" demoTracker))))).
    reflexivity.
  - apply (proj1 (proj2 (proj2 (proj2
             (addFilePathSettled_directory "/proj/lib/" demoTracker))))).
    reflexivity.
Defined.

Lemma flag_is_lowered_by_the_rescan_only_witness :
  needReInit
    (fst (fst (exec (@onDidCreate demoHost "/proj/plain.txt")
                 (setNeedReInit true trackedDemo) [])))
  = true.
Proof.
  apply (proj1 (@flag_is_lowered_by_the_rescan_only demoHost "/proj/plain.txt"
                  (@onDidCreate demoHost "/proj/plain.txt")
                  (or_introl eq_refl))).
  reflexivity.
Defined.

Lemma filtered_event_is_only_counted_witness :
  exec (@onDidChange demoHost "/proj/build") demoTracker []
  = (filteredTracker, [], Fulfilled tt)
  /\ eventCount filteredTracker = 1
  /\ filePaths filteredTracker = []
  /\ liveTimers filteredTracker = [].
Proof.
  destruct (@filtered_event_is_only_counted demoHost "/proj/build"
              (@onDidChange demoHost "/proj/build") demoTracker filteredTracker []
              (or_intror (or_intror (or_introl eq_refl))) eq_refl)
    as (Hexec & Hcount & Hpaths & (_ & Hlive & _) & _).
  split; [exact Hexec|]. split; [exact Hcount|]. split; [exact Hpaths | exact Hlive].
Defined.

Lemma gitignore_change_invalidates_before_stat_witness :
  exists t2 k,
    exec (@onDidChange demoHost "/proj/.gitignore") warmTracker []
    = (t2, [], Suspended (AwaitingStat "/proj/.gitignore" k))
    /\ gitignoreCache (gitIgnoreProcessor t2) = ∅
    /\ gitignoreCache (gitIgnoreProcessor
                         (fst (fst (exec (k (Some false)) warmTracker []))))
       = ∅
    /\ needReInit (fst (fst (exec (k (Some false)) warmTracker []))) = true
    /\ gitIgnoreProcessor (fst (fst (exec (k None) warmTracker [])))
       = gitIgnoreProcessor warmTracker
    /\ needReInit (fst (fst (exec (k None) warmTracker []))) = false.
Proof.
  destruct (@gitignore_change_invalidates_before_stat demoHost "/proj/.gitignore"
              warmTracker gitignoreFiltered [] eq_refl eq_refl)
    as (t2 & k & Hexec & Hcache & _ & Hend).
  exists t2, k. split; [exact Hexec|]. split; [exact Hcache|].
  destruct (Hend (Some false) warmTracker []) as (_ & Hanswered & _).
  destruct (Hend None warmTracker []) as (_ & _ & Hrejected).
  destruct (Hanswered ltac:(discriminate)) as [Hc Hf].
  destruct (Hrejected eq_refl) as [Hg Hn].
  split; [exact Hc|]. split; [exact Hf|]. split; [exact Hg|].
  rewrite Hn. reflexivity.
Defined.

Lemma answered_directory_is_not_read_again_witness :
  @shouldIgnoreFile demoHost editedDisk "/proj/other" []
    (snd (@shouldIgnoreFile demoHost demoDisk "/proj/notes" []
            (newGitIgnoreProcessor "/proj")))
  = @shouldIgnoreFile demoHost demoDisk "/proj/other" []
      (snd (@shouldIgnoreFile demoHost demoDisk "/proj/notes" []
              (newGitIgnoreProcessor "/proj"))).
Proof.
  apply (@answered_directory_is_not_read_again demoHost demoDisk editedDisk
           demoDisk (newGitIgnoreProcessor "/proj") "/proj/notes" "/proj/other"
           [] []).
  - vm_compute. discriminate.
  - reflexivity.
Defined.

Lemma query_keeps_cached_rules_witness :
  gitignoreCache
    (snd (@shouldIgnoreFile demoHost editedDisk "/proj/sub/x" []
            (gitIgnoreProcessor warmTracker)))
    !! "/proj" = Some ["build"].
Proof.
  apply (proj1 (@query_keeps_cached_rules demoHost editedDisk
                  (gitIgnoreProcessor warmTracker) "/proj/sub/x" "/proj" []
                  ["build"] eq_refl)).
Defined.

Lemma filter_answers_in_every_reachable_state_witness :
  match @steps demoHost (@newRuntime demoHost demoDisk) rescanRace with
  | Some r =>
      fst (@shouldIgnoreGlob demoHost "relative/path" [] (tracker r))
      <> Unfinished
  | None => False
  end.
Proof.
  destruct (@steps demoHost (@newRuntime demoHost demoDisk) rescanRace)
    as [r|] eqn:E.
  - apply (@filter_answers_in_every_reachable_state demoHost demoDisk
             rescanRace r "relative/path" []); [discriminate | | exact E].
    repeat constructor.
  - vm_compute in E. discriminate.
Defined.

Lemma empty_root_walk_never_ends_witness :
  fst (@shouldIgnoreFile demoHost demoDisk "src/a.txt" []
         (newGitIgnoreProcessor ""))
  = Unfinished.
Proof.
  apply (proj2 (@empty_root_walk_never_ends demoHost demoDisk
                  (newGitIgnoreProcessor "") "src/a.txt" []
                  eq_refl eq_refl eq_refl)).
Defined.

Lemma sibling_with_root_prefix_is_walked_witness :
  option_map fst
    (getGitignoreRulesForPath siblingDisk "/home/proj-old/src"
       (newGitIgnoreProcessor "/home/proj"))
  = Some ["dist"].
Proof.
  apply (sibling_with_root_prefix_is_walked siblingDisk "/home" "proj"
           "-old" ["src"]); try discriminate; try reflexivity.
  repeat constructor.
Defined.

(** * The watcher tasks, start to end *)

Section WatcherRuns.
Context `{Host}.

Lemma trigger_filePaths t :
  filePaths (triggerWorkspaceDidUpdate t) = filePaths t
  /\ needReInit (triggerWorkspaceDidUpdate t) = needReInit t.
Proof.
  unfold triggerWorkspaceDidUpdate.
  destruct (workspaceDidUpdateTimeout t); split; reflexivity.
Qed.

Lemma filter_frame p globs t res t1 :
  shouldIgnoreGlob p globs (incrementEventAndDetectFlood t) = (res, t1) ->
  filePaths t1 = filePaths t /\ sameTimers t t1
  /\ (needReInit t = true -> needReInit t1 = true).
Proof.
  intros Hfilter. rewrite (shouldIgnoreGlob_frame _ _ _ _ _ Hfilter).
  unfold incrementEventAndDetectFlood.
  destruct (Nat.ltb _ _); repeat split; auto.
Qed.

Lemma removeFilePath_absent_flag p t :
  setHas (normalizeFilePath p) (filePaths t) = false ->
  needReInit (snd (removeFilePath p t)) = true.
Proof.
  intros Hnp. unfold removeFilePath, setDelete. rewrite Hnp.
  destruct (String.eqb _ ".gitignore"); reflexivity.
Qed.

Lemma scheduled_after_added np stat t :
  singleTimer t ->
  liveTimers (triggerWorkspaceDidUpdate (snd (addFilePathSettled np stat t)))
  = [nextTimerId t].
Proof.
  intros Hsingle.
  pose proof (added_sameTimers np stat t) as Hsame.
  destruct (trigger_timers _ (singleTimer_same _ _ Hsame Hsingle)) as [Hlive _].
  destruct Hsame as (_ & _ & Hnext). rewrite Hlive, Hnext. reflexivity.
Qed.

(** X20: a creation that the filter lets through is handled in two
    stretches: up to the [stat] nothing but the counter, the flood flag
    and the rule cache has changed; after it, whatever it answered, the
    task fulfils with the entry tracked and exactly one timer pending,
    the new one. *)
Theorem creation_is_tracked_and_scheduled (fsPath : string)
    (t t1 : Tracker) (d : list (Awaiting unit)) :
  shouldIgnoreGlob fsPath getDirsToIgnore (incrementEventAndDetectFlood t)
  = (Normal false, t1) ->
  exists k,
    exec (onDidCreate fsPath) t d
    = (t1, d, Suspended (AwaitingStat (normalizeFilePath fsPath) k))
    /\ filePaths t1 = filePaths t
    /\ forall stat t' d',
         singleTimer t' ->
         snd (exec (k stat) t' d') = Fulfilled tt
         /\ setHas (fst (addFilePathSettled (normalizeFilePath fsPath) stat t'))
              (filePaths (fst (fst (exec (k stat) t' d')))) = true
         /\ liveTimers (fst (fst (exec (k stat) t' d'))) = [nextTimerId t'].
Proof.
  intros Hfilter. eexists. split.
  { unfold onDidCreate, modify, call, addFilePath. cbn [bind exec].
    rewrite Hfilter. cbn [bind exec]. reflexivity. }
  split; [apply (filter_frame _ _ _ _ _ Hfilter)|].
  intros stat t' d' Hsingle. cbv beta. unfold callTotal, modify.
  cbn [bind exec].
  pose proof (scheduled_after_added (normalizeFilePath fsPath) stat t' Hsingle)
    as Hlive.
  pose proof (addFilePathSettled_paths (normalizeFilePath fsPath) stat t')
    as Hpaths.
  destruct (addFilePathSettled (normalizeFilePath fsPath) stat t') as [added t3].
  cbn [bind exec fst snd] in *.
  split; [reflexivity|]. split; [|exact Hlive].
  rewrite (proj1 (trigger_filePaths t3)), Hpaths. apply setAdd_absorbs.
Qed.

(** X21: a change of a file tracked plain takes it out of the set before
    the [stat] is awaited, so that it is not tracked at the moment the
    task suspends.  Whatever the set has become when the [stat] settles,
    if the [stat] does not say directory the task fulfils with the file
    tracked: appended as the last entry when it was missing, the set left
    as it is when it was there. *)
Theorem change_retracks_file_on_resumption (fsPath : string)
    (t t1 : Tracker) (d : list (Awaiting unit)) :
  shouldIgnoreGlob fsPath getDirsToIgnore (incrementEventAndDetectFlood t)
  = (Normal false, t1) ->
  setHas (normalizeFilePath fsPath) (filePaths t) = true ->
  exists t2 k,
    exec (onDidChange fsPath) t d
    = (t2, d, Suspended (AwaitingStat (normalizeFilePath fsPath) k))
    /\ filePaths t2 = snd (setDelete (normalizeFilePath fsPath) (filePaths t))
    /\ setHas (normalizeFilePath fsPath) (filePaths t2) = false
    /\ forall stat t' d',
         stat <> Some true ->
         snd (exec (k stat) t' d') = Fulfilled tt
         /\ (setHas (normalizeFilePath fsPath) (filePaths t') = false ->
             filePaths (fst (fst (exec (k stat) t' d')))
             = filePaths t' ++ [normalizeFilePath fsPath])
         /\ (setHas (normalizeFilePath fsPath) (filePaths t') = true ->
             filePaths (fst (fst (exec (k stat) t' d'))) = filePaths t').
Proof.
  intros Hfilter Htracked.
  destruct (filter_frame _ _ _ _ _ Hfilter) as (Hsame & _ & _).
  rewrite <- Hsame in Htracked.
  destruct (proj1 (removeFilePath_paths fsPath t1) Htracked) as [_ Hpaths].
  rewrite Hsame in Hpaths.
  assert (Hgone : setHas (normalizeFilePath fsPath)
                    (filePaths (snd (removeFilePath fsPath t1))) = false).
  { rewrite Hpaths, setHas_setDelete, String.eqb_refl. reflexivity. }
  exists (snd (removeFilePath fsPath t1)). eexists. split.
  { unfold onDidChange, modify, call, callTotal, addFilePath.
    cbn [bind exec]. rewrite Hfilter. cbn [bind exec].
    destruct (removeFilePath fsPath t1) as [removed t2]. cbn [bind exec snd].
    reflexivity. }
  split; [exact Hpaths|]. split; [exact Hgone|].
  intros stat t' d' Hstat. cbv beta. unfold callTotal, modify. cbn [bind exec].
  pose proof (addFilePathSettled_paths (normalizeFilePath fsPath) stat t') as Hadd.
  assert (Hentry : fst (addFilePathSettled (normalizeFilePath fsPath) stat t')
                   = normalizeFilePath fsPath).
  { unfold addFilePathSettled. destruct stat as [[|]|]; [congruence| |]; reflexivity. }
  rewrite Hentry in Hadd.
  destruct (addFilePathSettled (normalizeFilePath fsPath) stat t') as [added t3].
  cbn [bind exec fst snd] in *.
  split; [reflexivity|].
  rewrite (proj1 (trigger_filePaths t3)), Hadd.
  unfold setAdd. split; intros ->; reflexivity.
Qed.

(** X22: the deletion of a path tracked plain or with the directory
    suffix, let through by the filter, is handled in one stretch: the
    plain entry is not tracked afterwards, exactly one timer is pending,
    the new one, and the flag is up when only the directory entry was
    there. *)
Theorem deletion_of_tracked_path_is_scheduled (fsPath : string)
    (t t1 : Tracker) (d : list (Awaiting unit)) :
  shouldIgnoreGlob fsPath getDirsToIgnore (incrementEventAndDetectFlood t)
  = (Normal false, t1) ->
  singleTimer t ->
  setHas (normalizeFilePath fsPath) (filePaths t) = true
  \/ setHas (normalizeFilePath fsPath +:+ "/") (filePaths t) = true ->
  exists t',
    exec (onDidDelete fsPath) t d = (t', d, Fulfilled tt)
    /\ setHas (normalizeFilePath fsPath) (filePaths t') = false
    /\ liveTimers t' = [nextTimerId t]
    /\ (setHas (normalizeFilePath fsPath) (filePaths t) = false ->
        needReInit t' = true
        /\ setHas (normalizeFilePath fsPath +:+ "/") (filePaths t') = false).
Proof.
  intros Hfilter Hsingle Htracked.
  destruct (filter_frame _ _ _ _ _ Hfilter) as (Hsame & Htimers & _).
  pose proof (remove_sameTimers fsPath t1) as Htimers2.
  assert (Hsingle2 : singleTimer (snd (removeFilePath fsPath t1))).
  { eapply singleTimer_same; [exact Htimers2|].
    eapply singleTimer_same; [exact Htimers | exact Hsingle]. }
  destruct (trigger_timers _ Hsingle2) as [Hlive _].
  destruct Htimers as (_ & _ & Hn1). destruct Htimers2 as (_ & _ & Hn2).
  rewrite Hn2, Hn1 in Hlive.
  destruct (removeFilePath_paths fsPath t1) as [Hfile Hnofile].
  cbv zeta in Hfile, Hnofile. rewrite Hsame in Hfile, Hnofile.
  pose proof (removeFilePath_absent_flag fsPath t1) as Hflag.
  assert (Hremoved : fst (removeFilePath fsPath t1) = true).
  { destruct (setHas (normalizeFilePath fsPath) (filePaths t)) eqn:Hnp.
    - apply Hfile. reflexivity.
    - destruct Htracked as [?|Hdir]; [discriminate|].
      rewrite (proj1 (Hnofile eq_refl)). exact Hdir. }
  exists (triggerWorkspaceDidUpdate (snd (removeFilePath fsPath t1))). split.
  { unfold onDidDelete, modify, call, callTotal. cbn [bind exec].
    rewrite Hfilter. cbn [bind exec].
    destruct (removeFilePath fsPath t1) as [removed t2]. cbn [fst snd] in *.
    subst removed. reflexivity. }
  rewrite (proj1 (trigger_filePaths _)), (proj2 (trigger_filePaths _)).
  split.
  { destruct (setHas (normalizeFilePath fsPath) (filePaths t)) eqn:Hnp.
    - rewrite (proj2 (Hfile eq_refl)), setHas_setDelete, String.eqb_refl. reflexivity.
    - rewrite (proj2 (Hnofile eq_refl)), setHas_setDelete, Hnp. apply andb_false_r. }
  split; [exact Hlive|].
  intros Hnp. rewrite Hsame in Hflag. split; [apply Hflag, Hnp|].
  rewrite (proj2 (Hnofile Hnp)), setHas_setDelete, String.eqb_refl. reflexivity.
Qed.

End WatcherRuns.

Lemma trackedDemo_singleTimer : singleTimer trackedDemo.
Proof. split; [left; reflexivity | discriminate]. Qed.

Lemma creation_is_tracked_and_scheduled_witness :
  exists k,
    exec (@onDidCreate demoHost "/proj/lib") trackedDemo []
    = (afterFilter "/proj/lib", [], Suspended (AwaitingStat "/proj/lib" k))
    /\ snd (exec (k (Some true)) trackedDemo []) = Fulfilled tt
    /\ setHas "/proj/lib/"
         (filePaths (fst (fst (exec (k (Some true)) trackedDemo [])))) = true
    /\ liveTimers (fst (fst (exec (k (Some true)) trackedDemo []))) = [0].
Proof.
  destruct (@creation_is_tracked_and_scheduled demoHost "/proj/lib" trackedDemo
              (afterFilter "/proj/lib") [] eq_refl) as (k & Hexec & _ & Hend).
  exists k. split; [exact Hexec|].
  exact (Hend (Some true) trackedDemo [] trackedDemo_singleTimer).
Defined.

Lemma change_retracks_file_on_resumption_witness :
  exists t2 k,
    exec (@onDidChange demoHost "/proj/a.txt") trackedDemo []
    = (t2, [], Suspended (AwaitingStat "/proj/a.txt" k))
    /\ filePaths t2 = ["/proj/sub/"]
    /\ filePaths (fst (fst (exec (k (Some false)) t2 [])))
       = ["/proj/sub/"; "/proj/a.txt"]
    /\ filePaths (fst (fst (exec (k None) trackedDemo [])))
       = ["/proj/a.txt"; "/proj/sub/"].
Proof.
  destruct (@change_retracks_file_on_resumption demoHost "/proj/a.txt"
              trackedDemo (afterFilter "/proj/a.txt") [] eq_refl eq_refl)
    as (t2 & k & Hexec & Hpaths & Hgone & Hend).
  exists t2, k. split; [exact Hexec|]. split; [exact Hpaths|].
  destruct (Hend (Some false) t2 [] ltac:(discriminate)) as (_ & Habsent & _).
  destruct (Hend None trackedDemo [] ltac:(discriminate)) as (_ & _ & Hthere).
  split.
  - rewrite (Habsent Hgone), Hpaths. reflexivity.
  - rewrite (Hthere eq_refl). reflexivity.
Defined.

Lemma deletion_of_tracked_path_is_scheduled_witness :
  exists t',
    exec (@onDidDelete demoHost "/proj/sub") trackedDemo []
    = (t', [], Fulfilled tt)
    /\ liveTimers t' = [0]
    /\ needReInit t' = true
    /\ setHas "/proj/sub/" (filePaths t') = false.
Proof.
  destruct (@deletion_of_tracked_path_is_scheduled demoHost "/proj/sub"
              trackedDemo (afterFilter "/proj/sub") [] eq_refl
              trackedDemo_singleTimer (or_intror eq_refl))
    as (t' & Hexec & _ & Hlive & Hdir).
  exists t'. split; [exact Hexec|]. split; [exact Hlive|].
  exact (Hdir eq_refl).
Defined.
